(** * Stylistic lint rules [no-tabs] and [no-multiple-empty-lines]

    A shallow embedding of the two rule implementations and of the part
    of the host linter they call (line decomposition, location to offset
    mapping, option schema validation, application of a removal fix),
    followed by the properties proved about them.

    Conventions.
    - A source text is a JavaScript string: a list of UTF-16 code units,
      each a number [N].
    - JavaScript numbers that hold line numbers, columns, offsets and
      thresholds are integers [Z]; indices into a string produced by the
      regular-expression engine are [nat].
    - [context.report] appends to the list of reports of the pass. *)

From Stdlib Require Import ZArith NArith Ascii String Lia.
From stdpp Require Import base list sorting gmap sets strings.

Set Default Proof Using "Type".

(** ** Characters and strings *)

Abbreviation char := N (only parsing).
Abbreviation text := (list N) (only parsing).

Definition TAB : char := 9%N.
Definition LF : char := 10%N.
Definition CR : char := 13%N.
Definition LS : char := 8232%N.   (* U+2028 LINE SEPARATOR *)
Definition PS : char := 8233%N.   (* U+2029 PARAGRAPH SEPARATOR *)

(** Reads a string written with the escapes [\n], [\r], [\t] and [\\] of
    a JavaScript string literal; used to write down concrete inputs. *)
Fixpoint js (s : string) : text :=
  match s with
  | EmptyString => []
  | String "\"%char (String "n"%char s') => LF :: js s'
  | String "\"%char (String "r"%char s') => CR :: js s'
  | String "\"%char (String "t"%char s') => TAB :: js s'
  | String "\"%char (String "\"%char s') => N_of_ascii "\"%char :: js s'
  | String c s' => N_of_ascii c :: js s'
  end.

(** The set matched by [\s], which is also the set removed by
    [String.prototype.trim]: WhiteSpace and LineTerminator code points. *)
Definition isWhiteSpace (c : char) : bool :=
  ((c =? 9) || (c =? 10) || (c =? 11) || (c =? 12) || (c =? 13) || (c =? 32)
   || (c =? 160) || (c =? 5760) || ((8192 <=? c) && (c <=? 8202))
   || (c =? 8232) || (c =? 8233) || (c =? 8239) || (c =? 8287)
   || (c =? 12288) || (c =? 65279))%N.

(** [/\S/u.test(s)]: some code unit of [s] is not white space. *)
Definition anyNonWhitespaceRegex_test (s : text) : bool :=
  existsb (fun c => negb (isWhiteSpace c)) s.

(** Truthiness of [s.trim()]: the trimmed string is non-empty. *)
Definition trim_truthy (s : text) : bool :=
  existsb (fun c => negb (isWhiteSpace c)) s.

(** Locations as the linter has them: 1-based line, 0-based column. *)
Record Loc := { line : Z; column : Z }.
Record SourceLocation := { start : Loc; end_ : Loc }.

#[global] Instance Loc_eq_dec : EqDecision Loc.
Proof. solve_decision. Defined.
#[global] Instance SourceLocation_eq_dec : EqDecision SourceLocation.
Proof. solve_decision. Defined.

(** ** The host linter's source model

    The SourceModel component ([sourceCode.text], [sourceCode.lines],
    [sourceCode.getLines], [sourceCode.getIndexFromLoc]) and the
    application of a removal fix belong to the host linter; the rules
    only call them. *)
Module SourceCode.

(** Modelled from the spec: the line terminators on which the source
    model splits a text, which are CR LF, CR, LF, U+2028 and U+2029 in
    the host linter. *)
Definition isLineTerminator (c : char) : bool :=
  ((c =? LF) || (c =? CR) || (c =? LS) || (c =? PS))%N.

(** Modelled from the spec: the ordered sequence of lines of a text,
    split on line terminators in one pass from left to right, CR LF
    being one terminator.  Each line comes with the terminator that ends
    it; the last line has the empty terminator, so a text that ends with
    a terminator has an empty last line. *)
Fixpoint segments (t : text) : list (text * text) :=
  match t with
  | [] => [([], [])]
  | c :: t' =>
      if (c =? CR)%N then
        match t' with
        | c' :: t'' =>
            if (c' =? LF)%N then ([], [CR; LF]) :: segments t''
            else ([], [CR]) :: segments t'
        | [] => ([], [CR]) :: segments t'
        end
      else if isLineTerminator c then ([], [c]) :: segments t'
      else
        match segments t' with
        | (l, tm) :: rest => (c :: l, tm) :: rest
        | [] => [([c], [])]
        end
  end.

(** Modelled from the spec: [sourceCode.lines], also returned by
    [sourceCode.getLines()]. *)
Definition lines (t : text) : list text := (segments t).*1.

(** Modelled from the spec: the offset at which each line starts. *)
Fixpoint startIndices (off : Z) (segs : list (text * text)) : list Z :=
  match segs with
  | [] => []
  | (l, tm) :: rest =>
      off :: startIndices (off + Z.of_nat (length l) + Z.of_nat (length tm)) rest
  end.

Definition lineStartIndices (t : text) : list Z := startIndices 0 (segments t).

(** Modelled from the spec: [offsetOf(line, column)], the host linter's
    [sourceCode.getIndexFromLoc].  An out-of-range request fails loudly:
    [None] stands for the [RangeError] thrown, for a line below 1 or
    past the last line, and for a column past the end of the line (the
    last line may be addressed at its very end). *)
Definition getIndexFromLoc (t : text) (loc : Loc) : option Z :=
  let lsi := lineStartIndices t in
  let len := Z.of_nat (length lsi) in
  if (line loc <=? 0)%Z then None
  else if (len <? line loc)%Z then None
  else
    match lsi !! Z.to_nat (line loc - 1) with
    | None => None
    | Some lineStartIndex =>
        let lineEndIndex :=
          if (line loc =? len)%Z then Z.of_nat (length t)
          else default 0%Z (lsi !! Z.to_nat (line loc)) in
        let positionIndex := (lineStartIndex + column loc)%Z in
        if ((line loc =? len) && (lineEndIndex <? positionIndex)
            || (line loc <? len) && (lineEndIndex <=? positionIndex))%Z
        then None
        else Some positionIndex
    end.

(** Modelled from the spec: the text after the single fix
    [fixer.removeRange([rs, re])] is applied, which is
    [text.slice(0, rs) + text.slice(re)] for offsets within the text. *)
Definition removeRange (t : text) (range : Z * Z) : text :=
  take (Z.to_nat range.1) t ++ drop (Z.to_nat range.2) t.

End SourceCode.

(** ** JSON option values and the syntax tree nodes the rules visit *)

(** A configuration value as written by the user.  A number is either an
    integer or some non-integer, whose value no schema here looks at. *)
#[warnings="-register-all"]
Inductive json :=
| JNull
| JBool (b : bool)
| JInteger (z : Z)
| JNonInteger
| JString (s : string)
| JArray (items : list json)
| JObject (fields : list (string * json)).

(** [obj[key]]: [None] is [undefined]. *)
Fixpoint property (fields : list (string * json)) (key : string) : option json :=
  match fields with
  | [] => None
  | (k, v) :: rest => if String.eqb k key then Some v else property rest key
  end.

Module ESTree.
(** A [TemplateElement] (one literal part of a template literal) and a
    [TemplateLiteral]; only their locations are read. *)
Record TemplateElement := { loc : SourceLocation }.
Record TemplateLiteral := { quasis : list TemplateElement }.
End ESTree.

(** ** Rule [no-multiple-empty-lines] *)
Module NoMultipleEmptyLines.
Import SourceCode.

Inductive MessageIds := blankBeginningOfFile | blankEndOfFile | consecutiveBlank.

#[global] Instance MessageIds_eq_dec : EqDecision MessageIds.
Proof. solve_decision. Defined.

(** The option object after schema validation. *)
Record RuleOptions :=
  { opt_max : Z; opt_maxEOF : option Z; opt_maxBOF : option Z }.

(** *** [meta.schema] *)

(** [{ type: 'integer', minimum: 0 }] *)
Definition integer_minimum_0 (v : json) : option Z :=
  match v with
  | JInteger z => if (0 <=? z)%Z then Some z else None
  | _ => None
  end.

(** A property that may be absent: [Some None] when absent, [None] when
    present and invalid. *)
Definition optional_integer (fields : list (string * json)) (key : string)
  : option (option Z) :=
  match property fields key with
  | None => Some None
  | Some v => Some <$> integer_minimum_0 v
  end.

(** [additionalProperties: false] *)
Definition known_key (k : string) : bool :=
  String.eqb k "max" || String.eqb k "maxEOF" || String.eqb k "maxBOF".

(** The object schema: [type: 'object'], the three integer properties,
    [required: ['max']], no additional property.  [None] is a rejected
    configuration. *)
Definition validate_item (v : json) : option RuleOptions :=
  match v with
  | JObject fields =>
      if forallb (fun kv => known_key kv.1) fields then
        match property fields "max" with
        | None => None
        | Some m =>
            max ← integer_minimum_0 m;
            maxEOF ← optional_integer fields "maxEOF";
            maxBOF ← optional_integer fields "maxBOF";
            Some {| opt_max := max; opt_maxEOF := maxEOF; opt_maxBOF := maxBOF |}
        end
      else None
  | _ => None
  end.

(** A schema given as an array of one item schema accepts an option
    array of at most one item; the item is optional. *)
Definition validate (options : list json) : option (list RuleOptions) :=
  match options with
  | [] => Some []
  | [v] => o ← validate_item v; Some [o]
  | _ => None
  end.

(** *** [create]: the thresholds captured by the visitors *)

Record Limits := { max : Z; maxEOF : Z; maxBOF : Z }.

Definition create (options : list RuleOptions) : Limits :=
  (* Use options.max or 2 as default *)
  let max := 2%Z in
  let maxEOF := max in
  let maxBOF := max in
  match options with
  | o :: _ =>
      let max := opt_max o in
      {| max := max;
         maxEOF := match opt_maxEOF o with Some v => v | None => max end;
         maxBOF := match opt_maxBOF o with Some v => v | None => max end |}
  | [] => {| max := max; maxEOF := maxEOF; maxBOF := maxBOF |}
  end.

(** Swallow the final newline. *)
Definition allLines (lines : list text) : list text :=
  if decide (last lines = Some []) then take (length lines - 1) lines else lines.

(** *** Visitor [TemplateLiteral] *)

(** [for (ignoredLine = from; ignoredLine < to; ignoredLine++) add],
    with the number of iterations left as the structural argument. *)
Fixpoint add_ignored (ignoredLine : Z) (iterations : nat) (s : gset Z) : gset Z :=
  match iterations with
  | O => s
  | S k => add_ignored (ignoredLine + 1) k ({[ ignoredLine ]} ∪ s)
  end.

Definition TemplateLiteral (templateLiteralLines : gset Z) (node : ESTree.TemplateLiteral)
  : gset Z :=
  foldl (fun s literalPart =>
           let from := line (start (ESTree.loc literalPart)) in
           let to := line (end_ (ESTree.loc literalPart)) in
           add_ignored from (Z.to_nat (to - from)) s)
        templateLiteralLines (ESTree.quasis node).

(** *** Visitor [Program:exit] *)

Record ReportData := { data_max : Z; pluralizedLines : string }.

(** [fix_] holds what the fix callback returns: the range given to
    [fixer.removeRange], or [None] when [getIndexFromLoc] throws. *)
Record Report :=
  { loc : SourceLocation;
    messageId : MessageIds;
    data : ReportData;
    fix_ : option (Z * Z) }.

(** [Array.prototype.reduce] with the element index. *)
Fixpoint reduce_index {A B} (f : B → A → nat → B) (l : list A) (index : nat) (acc : B) : B :=
  match l with
  | [] => acc
  | x :: l' => reduce_index f l' (S index) (f acc x index)
  end.

Definition nonEmptyLineNumbers (templateLiteralLines : gset Z) (allLines : list text)
  : list Z :=
  reduce_index
    (fun nonEmptyLineNumbers line index =>
       if trim_truthy line || bool_decide ((Z.of_nat index + 1)%Z ∈ templateLiteralLines)
       then nonEmptyLineNumbers ++ [(Z.of_nat index + 1)%Z]
       else nonEmptyLineNumbers)
    allLines 0 [].

Section Program_exit.
Variable limits : Limits.
Variable text_ : text.                 (* sourceCode.text *)
Variable allLines_length : Z.          (* allLines.length *)

Definition run_fix (lastLineNumber lineNumber maxAllowed : Z) : option (Z * Z) :=
  rangeStart ← getIndexFromLoc text_ {| line := lastLineNumber + 1; column := 0 |};
  let lineNumberAfterRemovedLines := (lineNumber - maxAllowed)%Z in
  rangeEnd ←
    (if (lineNumberAfterRemovedLines <=? allLines_length)%Z
     then getIndexFromLoc text_ {| line := lineNumberAfterRemovedLines; column := 0 |}
     else Some (Z.of_nat (length text_)));
  Some (rangeStart, rangeEnd).

Definition select (lastLineNumber lineNumber : Z) : MessageIds * Z :=
  if (lastLineNumber =? 0)%Z then (blankBeginningOfFile, maxBOF limits)
  else if (lineNumber =? allLines_length + 1)%Z then (blankEndOfFile, maxEOF limits)
  else (consecutiveBlank, max limits).

Definition make_report (lastLineNumber lineNumber : Z) : Report :=
  let '(messageId, maxAllowed) := select lastLineNumber lineNumber in
  {| loc := {| start := {| line := lastLineNumber + maxAllowed + 1; column := 0 |};
               end_ := {| line := lineNumber; column := 0 |} |};
     messageId := messageId;
     data := {| data_max := maxAllowed;
                pluralizedLines := if (maxAllowed =? 1)%Z then "line" else "lines" |};
     fix_ := run_fix lastLineNumber lineNumber maxAllowed |}.

(** The callback of the second [reduce]; the reports of the pass are
    threaded next to the accumulator [lastLineNumber]. *)
Definition check (st : Z * list Report) (lineNumber : Z) : Z * list Report :=
  let '(lastLineNumber, reports) := st in
  let '(_, maxAllowed) := select lastLineNumber lineNumber in
  if (maxAllowed <? lineNumber - lastLineNumber - 1)%Z
  then (lineNumber, reports ++ [make_report lastLineNumber lineNumber])
  else (lineNumber, reports).
End Program_exit.

Definition Program_exit (limits : Limits) (text_ : text) (templateLiteralLines : gset Z)
  : list Report :=
  let lines := SourceCode.lines text_ in
  let allLines := allLines lines in
  let n := Z.of_nat (length allLines) in
  (foldl (check limits text_ n) (0%Z, [])
         (nonEmptyLineNumbers templateLiteralLines allLines ++ [(n + 1)%Z])).2.

(** One pass of the rule over a file: every [TemplateLiteral] node is
    visited during the traversal, [Program:exit] runs last. *)
Definition lint (options : list RuleOptions) (text_ : text)
           (templates : list ESTree.TemplateLiteral) : list Report :=
  Program_exit (create options) text_ (foldl TemplateLiteral ∅ templates).

End NoMultipleEmptyLines.

(** ** Rule [no-tabs] *)
Module NoTabs.

Inductive MessageIds := unexpectedTab.

#[global] Instance MessageIds_eq_dec : EqDecision MessageIds.
Proof. solve_decision. Defined.

Record Report := { loc : SourceLocation; messageId : MessageIds }.

#[global] Instance Report_eq_dec : EqDecision Report.
Proof. solve_decision. Defined.

(** The option object after validation; the schema default [false] has
    been filled in. *)
Record RuleOptions := { opt_allowIndentationTabs : bool }.

(** [context.options && context.options[0] &&
    context.options[0].allowIndentationTabs], as a truth value. *)
Definition allowIndentationTabs (options : list RuleOptions) : bool :=
  match options with
  | o :: _ => opt_allowIndentationTabs o
  | [] => false
  end.

(** *** The regular expression [tabRegex = /\t+/gu] *)

(** Index of the first tab of [s], if any. *)
Fixpoint indexOfTab (s : text) : option nat :=
  match s with
  | [] => None
  | c :: s' => if (c =? TAB)%N then Some O else S <$> indexOfTab s'
  end.

(** Length of the longest prefix of [s] made of tabs (greedy [\t+]). *)
Fixpoint tabRun (s : text) : nat :=
  match s with
  | [] => O
  | c :: s' => if (c =? TAB)%N then S (tabRun s') else O
  end.

Record Match := { index : nat; matched_length : nat }.

(** [tabRegex.exec(line)] for a global expression whose [lastIndex] is
    [lastIndex]: the result ([None] is [null]) and the new [lastIndex]. *)
Definition exec (line : text) (lastIndex : nat) : option Match * nat :=
  if (length line <? lastIndex)%nat then (None, O)
  else
    match indexOfTab (drop lastIndex line) with
    | None => (None, O)
    | Some k =>
        let i := (lastIndex + k)%nat in
        let n := tabRun (drop i line) in
        (Some {| index := i; matched_length := n |}, (i + n)%nat)
    end.

(** *** Visitor [Program] *)

Definition make_report (index_ : nat) (m : Match) : Report :=
  {| loc := {| start := {| line := Z.of_nat index_ + 1; column := Z.of_nat (index m) |};
               end_ := {| line := Z.of_nat index_ + 1;
                          column := Z.of_nat (index m) + Z.of_nat (matched_length m) |} |};
     messageId := unexpectedTab |}.

(** The state the loop changes: [tabRegex.lastIndex] and the reports. *)
Definition State : Type := nat * list Report.

(** [while ((match = tabRegex.exec(line)) !== null) { ... }].  [fuel]
    bounds the number of evaluations of the loop condition; [None]
    means the bound was reached before the loop ended. *)
Fixpoint while_exec (fuel : nat) (allow : bool) (index_ : nat) (line_ : text)
         (st : State) : option State :=
  match fuel with
  | O => None
  | S fuel' =>
      let '(lastIndex, reports) := st in
      match exec line_ lastIndex with
      | (None, lastIndex') => Some (lastIndex', reports)
      | (Some m, lastIndex') =>
          if allow && negb (anyNonWhitespaceRegex_test (take (index m) line_))
          then (* continue *) while_exec fuel' allow index_ line_ (lastIndex', reports)
          else while_exec fuel' allow index_ line_
                          (lastIndex', reports ++ [make_report index_ m])
      end
  end.

(** [sourceCode.getLines().forEach((line, index) => ...)] *)
Fixpoint forEach_line (fuel : nat) (allow : bool) (lines : list text) (index_ : nat)
         (st : State) : option State :=
  match lines with
  | [] => Some st
  | line_ :: rest =>
      st' ← while_exec fuel allow index_ line_ st;
      forEach_line fuel allow rest (S index_) st'
  end.

(** One pass of the rule; [tabRegex.lastIndex] is 0 when it starts. *)
Definition Program (fuel : nat) (options : list RuleOptions) (text_ : text)
  : option (list Report) :=
  snd <$> forEach_line fuel (allowIndentationTabs options)
                       (SourceCode.lines text_) O (O, []).

End NoTabs.


(** ** The linter's flow around a rule, and the blank-run measure stated
       on its own *)
Module BlankRunSpec.
Import SourceCode NoMultipleEmptyLines.

(** Validation happens when the configuration is loaded, before the
    rule is created and run. *)
Definition run (config : list json) (text_ : text)
           (templates : list ESTree.TemplateLiteral) : option (list Report) :=
  options ← validate config;
  Some (lint options text_ templates).

(** The value the user wrote for [key] in the option object, if any. *)
Definition supplied (config : list json) (key : string) : option json :=
  match config with
  | JObject fields :: _ => property fields key
  | _ => None
  end.

(** [allLines.length] for a text. *)
Definition totalLines (text_ : text) : Z :=
  Z.of_nat (length (allLines (lines text_))).

(** The line numbers kept by the first reduction, as a recursive scan. *)
Fixpoint markers_from (tl : gset Z) (l : list text) (index : nat) : list Z :=
  match l with
  | [] => []
  | x :: l' =>
      (if trim_truthy x || bool_decide ((Z.of_nat index + 1)%Z ∈ tl)
       then [(Z.of_nat index + 1)%Z] else [])
      ++ markers_from tl l' (S index)
  end.

(** Consecutive pairs of the sequence [prev :: ms]. *)
Fixpoint pairs (prev : Z) (ms : list Z) : list (Z * Z) :=
  match ms with
  | [] => []
  | m :: ms' => (prev, m) :: pairs m ms'
  end.

(** The test of [Program:exit] on a pair of consecutive markers. *)
Definition exceeds (limits : Limits) (n : Z) (p : Z * Z) : bool :=
  ((select limits n p.1 p.2).2 <? p.2 - p.1 - 1)%Z.

Inductive RunKind := BeginningOfFile | EndOfFile | Interior.

Definition classify (totalLines previous current : Z) : RunKind :=
  if (previous =? 0)%Z then BeginningOfFile
  else if (current =? totalLines + 1)%Z then EndOfFile
  else Interior.

Definition threshold (limits : Limits) (kind : RunKind) : Z :=
  match kind with
  | BeginningOfFile => maxBOF limits
  | EndOfFile => maxEOF limits
  | Interior => max limits
  end.

Definition message_of (kind : RunKind) : MessageIds :=
  match kind with
  | BeginningOfFile => blankBeginningOfFile
  | EndOfFile => blankEndOfFile
  | Interior => consecutiveBlank
  end.

(** Length of the blank run between two consecutive markers. *)
Definition run_length (previous current : Z) : Z := (current - previous - 1)%Z.

(** Line [m] (1-based) has non-white-space content or is excluded. *)
Definition non_blank (tl : gset Z) (ls : list text) (m : Z) : bool :=
  match ls !! Z.to_nat (m - 1) with
  | Some l => trim_truthy l
  | None => false
  end || bool_decide (m ∈ tl).

(** The sorted non-blank line numbers followed by the sentinel. *)
Definition marker_sequence (tl : gset Z) (ls : list text) : list Z :=
  filter (fun m => non_blank tl ls m = true) (Z.of_nat <$> seq 1 (length ls))
  ++ [(Z.of_nat (length ls) + 1)%Z].

(** The fold over the marker sequence: one entry [(kind, previous,
    current)] for each run longer than the threshold of its kind. *)
Fixpoint judge_runs (limits : Limits) (totalLines previous : Z) (markers : list Z)
  : list (RunKind * Z * Z) :=
  match markers with
  | [] => []
  | current :: rest =>
      let kind := classify totalLines previous current in
      (if (threshold limits kind <? run_length previous current)%Z
       then [(kind, previous, current)] else [])
      ++ judge_runs limits totalLines current rest
  end.

(** Line [l] lies in the half-open line range of the literal part [q]. *)
Definition covers (q : ESTree.TemplateElement) (l : Z) : Prop :=
  (line (start (ESTree.loc q)) ≤ l < line (end_ (ESTree.loc q)))%Z.

(** What a report says about its run: message, threshold, the marker
    before the run and the marker after it. *)
Definition report_previous (r : Report) : Z :=
  (line (start (loc r)) - data_max (data r) - 1)%Z.

Definition report_run (r : Report) : MessageIds * Z * Z * Z :=
  (messageId r, data_max (data r), report_previous r, line (end_ (loc r))).

Definition report_current (r : Report) : Z := line (end_ (loc r)).

Definition report_max (r : Report) : Z := data_max (data r).

(** The thresholds are non-negative, as the schema and the default make
    them. *)
Definition limits_valid (limits : Limits) : Prop :=
  (0 ≤ max limits)%Z ∧ (0 ≤ maxEOF limits)%Z ∧ (0 ≤ maxBOF limits)%Z.

(** [(p, c)] is a pair of neighbouring markers that [Program:exit]
    reports. *)
Definition reported_pair (limits : Limits) (t : text) (tl : gset Z) (p c : Z) : Prop :=
  (p, c) ∈ pairs 0 (markers_from tl (allLines (lines t)) 0 ++ [(totalLines t + 1)%Z])
  ∧ exceeds limits (totalLines t) (p, c) = true.

(** After a fix the file is parsed again.  Below line [p] nothing moved
    but every line is [k] lines higher: a line after [p] is excluded in
    the new tree exactly when the line [k] further down was excluded in
    the old one. *)
Definition reparsed_after (p k : Z) (tl tl' : gset Z) : Prop :=
  ∀ l, (p < l)%Z → l ∈ tl' ↔ (l + k)%Z ∈ tl.

(** What the parser guarantees of a literal part that spans several
    lines: its first line holds its opening delimiter, so that line has
    non-white-space content. *)
Definition opens_on_content (t : text) (templates : list ESTree.TemplateLiteral) : Prop :=
  ∀ node q, node ∈ templates → q ∈ ESTree.quasis node →
            (line (start (ESTree.loc q)) < line (end_ (ESTree.loc q)))%Z →
            non_blank ∅ (allLines (lines t)) (line (start (ESTree.loc q))) = true.

End BlankRunSpec.

(** ** Maximal runs of tabs, stated on their own *)
Module TabRunSpec.
Import NoTabs.

(** Columns [[s, e)] of the line are a maximal run of tabs: a non-empty
    run that cannot be extended on either side. *)
Definition is_tab_run (l : text) (s e : nat) : Prop :=
  (s < e)%nat
  ∧ (∀ i, (s ≤ i < e)%nat → l !! i = Some TAB)
  ∧ (s = O ∨ l !! (s - 1)%nat ≠ Some TAB)
  ∧ l !! e ≠ Some TAB.

(** Every character before column [s] is white space: a run that starts
    at [s] lies within the leading indentation. *)
Definition within_indentation (l : text) (s : nat) : Prop :=
  ∀ i c, (i < s)%nat → l !! i = Some c → isWhiteSpace c = true.

(** The test of the loop body that skips a match. *)
Definition suppressed (allow : bool) (l : text) (s : nat) : bool :=
  allow && negb (anyNonWhitespaceRegex_test (take s l)).

(** The report for the run [[s, e)] of the line with 0-based index
    [index_]: from its first column to just after its last column, on
    the line numbered [index_ + 1]. *)
Definition report_at (index_ : nat) (se : nat * nat) : Report :=
  {| loc := {| start := {| line := Z.of_nat index_ + 1; column := Z.of_nat se.1 |};
               end_ := {| line := Z.of_nat index_ + 1; column := Z.of_nat se.2 |} |};
     messageId := unexpectedTab |}.

(** The runs the loop reports on one line, out of the runs it visits. *)
Definition reported (allow : bool) (index_ : nat) (l : text) (runs : list (nat * nat))
  : list Report :=
  report_at index_ <$> filter (fun se => suppressed allow l se.1 = false) runs.

(** A position the scan can be at when the loop condition is evaluated:
    the start of the line, or just after a match. *)
Definition scan_pos (l : text) (p : nat) : Prop :=
  (p ≤ length l)%nat ∧ (p = O ∨ l !! p ≠ Some TAB).

(** A bound on the evaluations of the loop condition that is enough for
    every line. *)
Definition enough_fuel (ls : list text) : nat := S (max_list (length <$> ls)).

(** The run [[s, e)] of the line with index [i] is one the rule reports:
    a maximal run that the indentation test does not skip. *)
Definition reported_run (allow : bool) (ls : list text) (i s e : nat) : Prop :=
  ∃ l, ls !! i = Some l ∧ is_tab_run l s e ∧ suppressed allow l s = false.

(** [enabled] is the value of [allowIndentationTabs] the user gave in
    the first option object, or [false] when there is no option
    object. *)
Definition option_value (options : list RuleOptions) (enabled : bool) : Prop :=
  (options = [] ∧ enabled = false)
  ∨ ∃ rest, options = {| opt_allowIndentationTabs := enabled |} :: rest.

End TabRunSpec.

(** ** Segments of a text, stated on their own *)
Module SegmentSpec.
Import SourceCode.

(** The text a list of segments stands for. *)
Definition flat (segs : list (text * text)) : text :=
  concat ((fun sg => sg.1 ++ sg.2) <$> segs).

(** The line terminators. *)
Definition is_terminator (tm : text) : Prop :=
  tm = [CR; LF] ∨ tm = [CR] ∨ tm = [LF] ∨ tm = [LS] ∨ tm = [PS].

(** A line followed by its terminator, as it occurs before the last line
    of a text. *)
Definition terminated (sg : text * text) : Prop :=
  Forall (fun c => isLineTerminator c = false) sg.1 ∧ is_terminator sg.2.

(** A lone CR at the end of [segs] would join a LF at the start of [t]. *)
Definition joins (segs : list (text * text)) (t : text) : Prop :=
  (∃ l, last segs = Some (l, [CR])) ∧ head t = Some LF.

(** Offset of the start of the 1-based line [n]. *)
Definition offset_of_line (t : text) (n : Z) : Z :=
  Z.of_nat (length (flat (take (Z.to_nat (n - 1)) (segments t)))).

End SegmentSpec.

(** ** Relations between reports, stated on their own *)
Module ReportOrder.

(** A blank-line report comes wholly before another: its span ends on a
    line before the line where the other starts, and the range of its
    fix ends before the range of the other's fix starts. *)
Definition blank_before (r1 r2 : NoMultipleEmptyLines.Report) : Prop :=
  (line (end_ (NoMultipleEmptyLines.loc r1)) < line (start (NoMultipleEmptyLines.loc r2)))%Z
  ∧ ∀ range1 range2,
      NoMultipleEmptyLines.fix_ r1 = Some range1 →
      NoMultipleEmptyLines.fix_ r2 = Some range2 →
      (range1.2 < range2.1)%Z.

(** Some literal part of some template literal covers line [l]. *)
Definition covered (templates : list ESTree.TemplateLiteral) (l : Z) : Prop :=
  ∃ node q, node ∈ templates ∧ q ∈ ESTree.quasis node ∧ BlankRunSpec.covers q l.

(** A tab report comes before another: on an earlier line, or on the
    same line and ending before the other starts. *)
Definition tab_before (r1 r2 : NoTabs.Report) : Prop :=
  (line (start (NoTabs.loc r1)) < line (start (NoTabs.loc r2)))%Z
  ∨ (line (start (NoTabs.loc r1)) = line (start (NoTabs.loc r2))
     ∧ (column (end_ (NoTabs.loc r1)) < column (start (NoTabs.loc r2)))%Z).

(** The span of the tab report [r] holds column [j] of the line with
    0-based index [i]. *)
Definition spans (r : NoTabs.Report) (i j : nat) : Prop :=
  line (start (NoTabs.loc r)) = (Z.of_nat i + 1)%Z
  ∧ line (end_ (NoTabs.loc r)) = (Z.of_nat i + 1)%Z
  ∧ (column (start (NoTabs.loc r)) ≤ Z.of_nat j < column (end_ (NoTabs.loc r)))%Z.

End ReportOrder.
(** * Properties *)

(** ** The source model on small inputs *)

Example js_escape : js "a\n\tb" = [97; 10; 9; 98]%N.
Proof. reflexivity. Qed.

Example lines_crlf :
  SourceCode.lines (js "a\r\nb\rc\n") = [js "a"; js "b"; js "c"; js ""].
Proof. reflexivity. Qed.

Example index_of_line_3 :
  SourceCode.getIndexFromLoc (js "a\r\nb\rc\n") {| line := 3; column := 0 |} = Some 5%Z.
Proof. reflexivity. Qed.


(** ** Blank-line rule: the two reductions of [Program:exit] *)
Module BlankLineFacts.
Import SourceCode NoMultipleEmptyLines BlankRunSpec.

Lemma reduce_index_markers tl l index acc :
  reduce_index
    (fun nonEmptyLineNumbers line index =>
       if trim_truthy line || bool_decide ((Z.of_nat index + 1)%Z ∈ tl)
       then nonEmptyLineNumbers ++ [(Z.of_nat index + 1)%Z]
       else nonEmptyLineNumbers) l index acc
  = acc ++ markers_from tl l index.
Proof.
  revert index acc. induction l as [|x l IH]; intros index acc; simpl.
  - by rewrite app_nil_r.
  - rewrite IH. destruct (trim_truthy x || _); simpl.
    + by rewrite <- app_assoc.
    + done.
Qed.

Lemma nonEmptyLineNumbers_markers tl l :
  nonEmptyLineNumbers tl l = markers_from tl l 0.
Proof. unfold nonEmptyLineNumbers. by rewrite reduce_index_markers. Qed.

Lemma elem_of_markers_from tl l index m :
  m ∈ markers_from tl l index ↔
  ∃ i x, l !! i = Some x ∧ m = (Z.of_nat (index + i) + 1)%Z
         ∧ (trim_truthy x = true ∨ m ∈ tl).
Proof.
  revert index. induction l as [|x l IH]; intros index; simpl.
  - split; [by intros ?%elem_of_nil | by intros (i & y & ? & _)].
  - rewrite elem_of_app, IH. split.
    + intros [Hm | (i & y & Hl & -> & Hy)].
      * destruct (trim_truthy x || _) eqn:E; [|by apply elem_of_nil in Hm].
        apply list_elem_of_singleton in Hm as ->.
        exists 0%nat, x. split; [done|]. split; [f_equal; lia|].
        apply orb_true_iff in E as [E | E]; [by left | right].
        by apply bool_decide_eq_true in E.
      * exists (S i), y. split; [done|]. split; [lia|].
        by replace (Z.of_nat (index + S i)) with (Z.of_nat (S index + i)) by lia.
    + intros ([|i] & y & Hl & -> & Hy); simpl in Hl.
      * left. injection Hl as ->.
        replace (Z.of_nat (index + 0)) with (Z.of_nat index) in * by lia.
        assert (trim_truthy y || bool_decide ((Z.of_nat index + 1)%Z ∈ tl) = true) as ->.
        { apply orb_true_iff. destruct Hy as [Hy | Hy]; [by left | right].
          by apply bool_decide_eq_true. }
        apply list_elem_of_singleton. done.
      * right. exists i, y. split; [done|]. split; [lia|].
        by replace (Z.of_nat (S index + i)) with (Z.of_nat (index + S i)) by lia.
Qed.

Lemma foldl_check limits text_ n ms prev acc :
  (foldl (check limits text_ n) (prev, acc) ms).2
  = acc ++ map (fun p => make_report limits text_ n p.1 p.2)
               (filter (fun p => exceeds limits n p = true) (pairs prev ms)).
Proof.
  revert prev acc. induction ms as [|m ms IH]; intros prev acc; simpl.
  - by rewrite app_nil_r.
  - rewrite filter_cons. case_decide as Hex; unfold exceeds in Hex; simpl in Hex;
      destruct (select limits n prev m) as [mid maxAllowed]; simpl in Hex.
    + rewrite Hex, IH. simpl. by rewrite <- app_assoc.
    + apply not_true_is_false in Hex. by rewrite Hex, IH.
Qed.

Lemma Program_exit_pairs limits t tl :
  let ls := allLines (lines t) in
  let n := Z.of_nat (length ls) in
  Program_exit limits t tl
  = map (fun p => make_report limits t n p.1 p.2)
        (filter (fun p => exceeds limits n p = true)
                (pairs 0 (markers_from tl ls 0 ++ [(n + 1)%Z]))).
Proof.
  intros ls n. unfold Program_exit. fold ls. fold n.
  by rewrite foldl_check, nonEmptyLineNumbers_markers.
Qed.

Lemma select_classify limits n p c :
  select limits n p c = (message_of (classify n p c), threshold limits (classify n p c)).
Proof.
  unfold select, classify.
  destruct (p =? 0)%Z; [done|]. by destruct (c =? n + 1)%Z.
Qed.

Lemma exceeds_threshold limits n p c :
  exceeds limits n (p, c) = (threshold limits (classify n p c) <? run_length p c)%Z.
Proof. unfold exceeds. by rewrite select_classify. Qed.

Lemma report_run_make limits t n p c :
  report_run (make_report limits t n p c)
  = (message_of (classify n p c), threshold limits (classify n p c), p, c).
Proof.
  unfold report_run, report_previous, make_report.
  rewrite select_classify. simpl. repeat f_equal. lia.
Qed.

Lemma judge_runs_pairs limits n prev ms :
  judge_runs limits n prev ms
  = map (fun p => (classify n p.1 p.2, p.1, p.2))
        (filter (fun p => exceeds limits n p = true) (pairs prev ms)).
Proof.
  revert prev. induction ms as [|m ms IH]; intros prev; simpl; [done|].
  rewrite filter_cons, IH, exceeds_threshold.
  destruct (threshold limits (classify n prev m) <? run_length prev m)%Z eqn:E.
  - by rewrite decide_True.
  - by rewrite decide_False.
Qed.

Lemma markers_from_filter tl pre l :
  markers_from tl l (length pre)
  = filter (fun m => non_blank tl (pre ++ l) m = true)
           (Z.of_nat <$> seq (S (length pre)) (length l)).
Proof.
  revert pre. induction l as [|x l IH]; intros pre; simpl; [done|].
  rewrite filter_cons.
  replace (non_blank tl (pre ++ x :: l) (Z.of_nat (S (length pre))))
    with (trim_truthy x || bool_decide ((Z.of_nat (length pre) + 1)%Z ∈ tl)).
  2:{ unfold non_blank.
      replace (Z.to_nat (Z.of_nat (S (length pre)) - 1)) with (length pre) by lia.
      rewrite list_lookup_middle by done.
      by replace (Z.of_nat (S (length pre))) with (Z.of_nat (length pre) + 1)%Z by lia. }
  specialize (IH (pre ++ [x])). rewrite length_app in IH. simpl in IH.
  replace (length pre + 1)%nat with (S (length pre)) in IH by lia.
  rewrite <- app_assoc in IH. simpl in IH. rewrite IH.
  destruct (trim_truthy x || _); simpl.
  - f_equal. lia.
  - done.
Qed.

Lemma markers_marker_sequence tl ls :
  markers_from tl ls 0 ++ [(Z.of_nat (length ls) + 1)%Z] = marker_sequence tl ls.
Proof. unfold marker_sequence. f_equal. exact (markers_from_filter tl [] ls). Qed.

End BlankLineFacts.

(** ** The marker sequence is strictly increasing; excluded lines *)
Module MarkerFacts.
Import SourceCode NoMultipleEmptyLines BlankRunSpec BlankLineFacts.

Lemma markers_from_bounds tl l index m :
  m ∈ markers_from tl l index →
  (Z.of_nat index < m ≤ Z.of_nat (index + length l))%Z.
Proof.
  intros (i & x & Hl & -> & _)%elem_of_markers_from.
  apply lookup_lt_Some in Hl. lia.
Qed.

Lemma markers_from_sorted tl l index :
  StronglySorted Z.lt (markers_from tl l index).
Proof.
  revert index. induction l as [|x l IH]; intros index; simpl; [constructor|].
  apply StronglySorted_app_2; [| |apply IH].
  - intros x1 x2 H1 H2%markers_from_bounds.
    destruct (trim_truthy x || _); [|by apply elem_of_nil in H1].
    apply list_elem_of_singleton in H1 as ->. lia.
  - destruct (trim_truthy x || _); repeat constructor.
Qed.

(** The sequence [0 :: markers ++ [n + 1]] the second reduction walks. *)
Lemma walked_sequence_sorted tl l :
  StronglySorted Z.lt
    (0%Z :: markers_from tl l 0 ++ [(Z.of_nat (length l) + 1)%Z]).
Proof.
  apply StronglySorted_cons. split.
  - apply Forall_forall. intros m [Hm%markers_from_bounds | Hm]%elem_of_app; [lia|].
    apply list_elem_of_singleton in Hm as ->. lia.
  - apply StronglySorted_app_2; [|apply markers_from_sorted|repeat constructor].
    intros x1 x2 H1%markers_from_bounds H2. apply list_elem_of_singleton in H2 as ->.
    simpl in H1. lia.
Qed.

(** A pair produced by [pairs] is a pair of neighbours: no element of
    the sequence lies strictly between its components. *)
Lemma pairs_neighbours prev ms p c :
  StronglySorted Z.lt (prev :: ms) →
  (p, c) ∈ pairs prev ms →
  (p < c)%Z ∧ p ∈ prev :: ms ∧ c ∈ ms
  ∧ ∀ m, m ∈ prev :: ms → ¬ (p < m < c)%Z.
Proof.
  revert prev. induction ms as [|m0 ms IH]; intros prev Hs Hin; simpl in Hin.
  - by apply elem_of_nil in Hin.
  - apply StronglySorted_cons in Hs as [Hall Hs].
    pose proof Hall as [Hlt Hall']%Forall_cons.
    apply elem_of_cons in Hin as [Heq | Hin].
    + injection Heq as -> ->. repeat split; [done|by left|by left|].
      intros m [-> | [-> | Hm]%elem_of_cons]%elem_of_cons; [lia|lia|].
      apply StronglySorted_cons in Hs as [Hs0 _].
      rewrite Forall_forall in Hs0. specialize (Hs0 _ Hm). lia.
    + destruct (IH _ Hs Hin) as (Hpc & Hp & Hc & Hgap).
      repeat split; [done|by right|by right|].
      intros m [-> | Hm]%elem_of_cons; [|by apply Hgap].
      assert (m0 ≤ p)%Z; [|lia].
      apply elem_of_cons in Hp as [-> | Hp]; [lia|].
      apply StronglySorted_cons in Hs as [Hs0 _].
      rewrite Forall_forall in Hs0. specialize (Hs0 _ Hp). lia.
Qed.

(** Every report comes from a pair of neighbouring markers whose run
    exceeds the selected threshold. *)
Lemma elem_of_Program_exit limits t tl r :
  r ∈ Program_exit limits t tl ↔
  ∃ p c, (p, c) ∈ pairs 0 (markers_from tl (allLines (lines t)) 0
                            ++ [(totalLines t + 1)%Z])
         ∧ exceeds limits (totalLines t) (p, c) = true
         ∧ r = make_report limits t (totalLines t) p c.
Proof.
  rewrite Program_exit_pairs. fold (totalLines t).
  rewrite list_elem_of_fmap. split.
  - intros ([p c] & -> & [Hex Hin]%list_elem_of_filter). by exists p, c.
  - intros (p & c & Hin & Hex & ->). exists (p, c). split; [done|].
    by apply list_elem_of_filter.
Qed.

Lemma elem_of_add_ignored from k s l :
  l ∈ add_ignored from k s ↔ l ∈ s ∨ (from ≤ l < from + Z.of_nat k)%Z.
Proof.
  revert from s. induction k as [|k IH]; intros from s; simpl.
  - split; [by left | intros [?|?]; [done|lia]].
  - rewrite IH, elem_of_union, elem_of_singleton. split.
    + intros [[-> | ?] | ?]; [right; lia | by left | right; lia].
    + intros [? | ?]; [by left; right|].
      destruct (decide (l = from)) as [->|]; [by left; left | right; lia].
Qed.

Lemma elem_of_TemplateLiteral s node l :
  l ∈ TemplateLiteral s node ↔ l ∈ s ∨ ∃ q, q ∈ ESTree.quasis node ∧ covers q l.
Proof.
  unfold TemplateLiteral. revert s.
  induction (ESTree.quasis node) as [|q qs IH]; intros s; simpl.
  - split; [by left | intros [? | (q & ?%elem_of_nil & _)]; done].
  - rewrite IH, elem_of_add_ignored. unfold covers. split.
    + intros [[? | ?] | (q' & Hq' & ?)].
      * by left.
      * right. exists q. split; [by left | lia].
      * right. exists q'. split; [by right | done].
    + intros [? | (q' & [-> | Hq']%elem_of_cons & ?)].
      * by left; left.
      * left; right. lia.
      * right. by exists q'.
Qed.

Lemma elem_of_templateLiteralLines s templates l :
  l ∈ foldl TemplateLiteral s templates ↔
  l ∈ s ∨ ∃ node q, node ∈ templates ∧ q ∈ ESTree.quasis node ∧ covers q l.
Proof.
  revert s. induction templates as [|node templates IH]; intros s; simpl.
  - split; [by left | intros [? | (node & q & ?%elem_of_nil & _)]; done].
  - rewrite IH, elem_of_TemplateLiteral. split.
    + intros [[? | (q & ? & ?)] | (node' & q & ? & ? & ?)].
      * by left.
      * right. exists node, q. split; [by left | done].
      * right. exists node', q. split; [by right | done].
    + intros [? | (node' & q & [-> | ?]%elem_of_cons & ? & ?)].
      * by left; left.
      * left; right. by exists q.
      * right. by exists node', q.
Qed.

End MarkerFacts.

(** ** The source model: segments, offsets and removal of whole lines *)
Module SegmentFacts.
Import SourceCode SegmentSpec.

Lemma flat_cons sg segs : flat (sg :: segs) = sg.1 ++ sg.2 ++ flat segs.
Proof. unfold flat. simpl. by rewrite <- app_assoc. Qed.

Lemma flat_app A B : flat (A ++ B) = flat A ++ flat B.
Proof. unfold flat. by rewrite fmap_app, concat_app. Qed.

Lemma segments_nonempty t : segments t ≠ [].
Proof.
  destruct t as [|c t]; simpl; [done|].
  destruct (c =? CR)%N.
  - destruct t as [|c' t']; [done|]. by destruct (c' =? LF)%N.
  - destruct (isLineTerminator c); [done|].
    by destruct (segments t) as [|[l tm] rest].
Qed.

(** Unfolding of [segments] on a character that is not a terminator. *)
Lemma segments_char c t :
  isLineTerminator c = false →
  ∃ l tm rest, segments t = (l, tm) :: rest ∧ segments (c :: t) = (c :: l, tm) :: rest.
Proof.
  intros Hc. pose proof (segments_nonempty t) as Hne.
  destruct (segments t) as [|[l tm] rest] eqn:Hs; [done|].
  exists l, tm, rest. split; [done|]. simpl.
  assert ((c =? CR)%N = false) as ->.
  { unfold isLineTerminator in Hc. apply orb_false_iff in Hc as [Hc _].
    apply orb_false_iff in Hc as [Hc _]. by apply orb_false_iff in Hc as [_ ->]. }
  by rewrite Hc, Hs.
Qed.

Lemma not_terminator_not_CR c : isLineTerminator c = false → (c =? CR)%N = false.
Proof.
  unfold isLineTerminator. intros Hc. apply orb_false_iff in Hc as [Hc _].
  apply orb_false_iff in Hc as [Hc _]. by apply orb_false_iff in Hc as [_ ->].
Qed.

(** Induction following the cases of [segments]. *)
Lemma segments_ind (P : text → list (text * text) → Prop) :
  P [] [([], [])] →
  (∀ t, P t (segments t) → P (CR :: LF :: t) (([], [CR; LF]) :: segments t)) →
  (∀ t, head t ≠ Some LF → P t (segments t) → P (CR :: t) (([], [CR]) :: segments t)) →
  (∀ c t, c ≠ CR → isLineTerminator c = true → P t (segments t) →
          P (c :: t) (([], [c]) :: segments t)) →
  (∀ c t l tm rest, isLineTerminator c = false → segments t = (l, tm) :: rest →
                    P t ((l, tm) :: rest) → P (c :: t) ((c :: l, tm) :: rest)) →
  ∀ t, P t (segments t).
Proof.
  intros Hnil Hcrlf Hcr Hterm Hchar t.
  assert (∀ n t, (length t ≤ n)%nat → P t (segments t)) as H; [|by apply (H (length t))].
  clear t. induction n as [|n IH]; intros [|c t] Hlen; simpl in Hlen; try done; try lia.
  simpl. destruct (c =? CR)%N eqn:Hc.
  - apply N.eqb_eq in Hc as ->. destruct t as [|c' t'].
    + apply (Hcr []); [done|]. apply IH. simpl. lia.
    + destruct (c' =? LF)%N eqn:Hc'.
      * apply N.eqb_eq in Hc' as ->. apply Hcrlf, IH. simpl in Hlen. lia.
      * apply (Hcr (c' :: t')); [|apply IH; lia].
        simpl. intros [= ->]. by rewrite N.eqb_refl in Hc'.
  - apply N.eqb_neq in Hc. destruct (isLineTerminator c) eqn:Hlt.
    + apply Hterm; [done|done|]. apply IH. lia.
    + pose proof (segments_nonempty t) as Hne.
      destruct (segments t) as [|[l tm] rest] eqn:Hs; [done|].
      apply Hchar; [done|done|]. rewrite <- Hs. apply IH. lia.
Qed.

Lemma segments_flat t : flat (segments t) = t.
Proof.
  pattern t, (segments t). apply segments_ind; clear t.
  - done.
  - intros t IH. by rewrite flat_cons, IH.
  - intros t _ IH. by rewrite flat_cons, IH.
  - intros c t _ _ IH. by rewrite flat_cons, IH.
  - intros c t l tm rest _ _ IH. rewrite flat_cons in *. simpl in *. by rewrite IH.
Qed.

(** The last segment, and only the last, has the empty terminator; lines
    hold no terminator; a lone CR is not followed by a LF. *)
Lemma segments_cons_inv t l tm rest :
  segments t = (l, tm) :: rest → rest ≠ [] →
  t = l ++ tm ++ flat rest ∧ segments (flat rest) = rest
  ∧ terminated (l, tm) ∧ ¬ joins [(l, tm)] (flat rest).
Proof.
  revert l tm rest. pattern t, (segments t). apply segments_ind; clear t.
  - intros l tm rest [= <- <- <-]. done.
  - intros t _ l tm rest [= <- <- <-] _. rewrite segments_flat.
    split; [done|]. split; [done|]. split; [split; [constructor|by left]|].
    intros [(l & Hl) _]. simpl in Hl. congruence.
  - intros t Hhead _ l tm rest [= <- <- <-] _. rewrite segments_flat.
    split; [done|]. split; [done|]. split; [split; [constructor|by right; left]|].
    by intros [_ ?].
  - intros c t Hc Hlt _ l tm rest [= <- <- <-] _. rewrite segments_flat.
    split; [done|]. split; [done|]. split; [split; [constructor|]|].
    + unfold isLineTerminator in Hlt. right. simpl.
      apply orb_true_iff in Hlt as [Hlt|Hlt]; [|apply N.eqb_eq in Hlt as ->; tauto].
      apply orb_true_iff in Hlt as [Hlt|Hlt]; [|apply N.eqb_eq in Hlt as ->; tauto].
      apply orb_true_iff in Hlt as [Hlt|Hlt]; apply N.eqb_eq in Hlt as ->; tauto.
    + intros [(l & Hl) _]. simpl in Hl. congruence.
  - intros c t l tm rest Hc Hs IH l' tm' rest' [= <- <- <-] Hne.
    destruct (IH l tm rest eq_refl Hne) as (-> & Hrest & [Hl Htm] & Hj).
    split; [done|]. split; [done|]. split; [split; [by constructor|done]|].
    intros [(l' & Hl') Hh]. apply Hj. simpl in Hl'. injection Hl' as _ ->.
    split; [by exists l|done].
Qed.

Lemma is_terminator_nonempty tm : is_terminator tm → tm ≠ [].
Proof. intros [-> | [-> | [-> | [-> | ->]]]]; done. Qed.

Lemma segments_line l tm t2 :
  terminated (l, tm) → ¬ joins [(l, tm)] t2 →
  segments (l ++ tm ++ t2) = (l, tm) :: segments t2.
Proof.
  intros [Hl Htm] Hj. simpl in Hl, Htm. induction l as [|c l IH].
  - destruct Htm as [-> | [-> | [-> | [-> | ->]]]]; try done.
    simpl. destruct t2 as [|c' t2']; [done|].
    destruct (c' =? LF)%N eqn:Hc'; [|done]. apply N.eqb_eq in Hc' as ->.
    exfalso. apply Hj. split; [by exists []|done].
  - apply Forall_cons in Hl as [Hc Hl].
    destruct (segments_char c (l ++ tm ++ t2) Hc) as (l' & tm' & rest & Hs & Hs').
    simpl. simpl in Hs'. rewrite Hs'. rewrite IH in Hs; [by injection Hs as <- <- <-|done|].
    intros [(l0 & Hl0) Hh]. apply Hj. simpl in Hl0. injection Hl0 as _ ->.
    split; [by exists (c :: l)|done].
Qed.

(** A text cut at the start of a line: what follows is segmented as it
    was, and what precedes can be put before another text. *)
Lemma segments_suffix t A C :
  segments t = A ++ C → C ≠ [] →
  segments (flat C) = C ∧ t = flat A ++ flat C ∧ Forall terminated A.
Proof.
  revert t. induction A as [|[l tm] A IH]; intros t Hs Hne; simpl in Hs.
  - rewrite <- Hs, segments_flat. done.
  - destruct (segments_cons_inv _ _ _ _ Hs) as (-> & Hrest & Htm & _).
    { by destruct A. }
    destruct (IH _ Hrest Hne) as (HC & Hflat & HA).
    split; [done|]. split; [|by constructor].
    rewrite flat_cons, flat_app. simpl. by rewrite <- !app_assoc.
Qed.

Lemma joins_cons sg A t2 : A ≠ [] → joins (sg :: A) t2 ↔ joins A t2.
Proof.
  intros HA. unfold joins. destruct A as [|sg' A']; [done|].
  by rewrite last_cons_cons.
Qed.

Lemma head_flat_terminated sg A t2 :
  terminated sg → head (flat (sg :: A) ++ t2) = head (flat (sg :: A)).
Proof.
  intros [_ Htm%is_terminator_nonempty]. rewrite flat_cons.
  destruct sg as [[|c l] [|c' tm]]; simpl in *; done.
Qed.

Lemma segments_prefix t A C t2 :
  segments t = A ++ C → C ≠ [] → ¬ joins A t2 →
  segments (flat A ++ t2) = A ++ segments t2.
Proof.
  revert t. induction A as [|[l tm] A IH]; intros t Hs Hne Hj; simpl in Hs; [done|].
  destruct (segments_cons_inv _ _ _ _ Hs) as (-> & Hrest & Htm & Hj0).
  { by destruct A. }
  rewrite flat_cons. simpl. rewrite <- !app_assoc.
  destruct A as [|sg A].
  - simpl. by rewrite segments_line.
  - destruct (segments_suffix _ _ _ Hrest Hne) as (_ & _ & [Hsg _]%Forall_cons).
    rewrite segments_line.
    + f_equal. apply (IH _ Hrest Hne). intros Hj'. apply Hj. by apply joins_cons.
    + done.
    + intros [Hl Hh]. apply Hj0. split; [done|].
      rewrite head_flat_terminated in Hh by done.
      rewrite flat_app. by rewrite head_flat_terminated.
Qed.

Lemma segments_last t : ∃ l, last (segments t) = Some (l, []).
Proof.
  pattern t, (segments t). apply segments_ind; clear t.
  - by exists [].
  - intros t [l Hl]. exists l. pose proof (segments_nonempty t).
    destruct (segments t); [done|]. by rewrite last_cons_cons.
  - intros t _ [l Hl]. exists l. pose proof (segments_nonempty t).
    destruct (segments t); [done|]. by rewrite last_cons_cons.
  - intros c t _ _ [l Hl]. exists l. pose proof (segments_nonempty t).
    destruct (segments t); [done|]. by rewrite last_cons_cons.
  - intros c t l tm rest _ _ [l' Hl']. destruct rest as [|sg rest].
    + simpl in *. injection Hl' as <- <-. by exists (c :: l).
    + exists l'. by rewrite last_cons_cons in *.
Qed.

Lemma startIndices_length off segs : length (startIndices off segs) = length segs.
Proof.
  revert off. induction segs as [|[l tm] segs IH]; intros off; simpl; [done|].
  by rewrite IH.
Qed.

Lemma startIndices_lookup off segs i :
  (i < length segs)%nat →
  startIndices off segs !! i = Some (off + Z.of_nat (length (flat (take i segs))))%Z.
Proof.
  revert off i. induction segs as [|[l tm] segs IH]; intros off i Hi; simpl in Hi; [lia|].
  destruct i as [|i]; simpl.
  - f_equal. unfold flat. simpl. lia.
  - rewrite IH by lia. f_equal. rewrite flat_cons, !length_app. simpl. lia.
Qed.

Lemma flat_take_le t i :
  (length (flat (take i (segments t))) ≤ length t)%nat.
Proof.
  rewrite <- (segments_flat t) at 2. rewrite <- (take_drop i (segments t)) at 2.
  rewrite flat_app, length_app. lia.
Qed.

Lemma flat_take_S_lt t i :
  (S i < length (segments t))%nat →
  (length (flat (take i (segments t))) < length (flat (take (S i) (segments t))))%nat.
Proof.
  intros Hi.
  destruct (lookup_lt_is_Some_2 (segments t) i) as [sg Hsg]; [lia|].
  rewrite (take_S_r _ _ _ Hsg), flat_app, length_app.
  assert (terminated sg) as [_ Htm%is_terminator_nonempty].
  { destruct (segments_suffix t (take (S i) (segments t)) (drop (S i) (segments t)))
      as (_ & _ & HA).
    - by rewrite take_drop.
    - intros Hd. apply (f_equal length) in Hd. rewrite length_drop in Hd. simpl in Hd. lia.
    - rewrite Forall_forall in HA. apply HA.
      apply list_elem_of_lookup. exists i. rewrite lookup_take_lt by lia. done. }
  unfold flat. simpl. rewrite app_nil_r, length_app.
  destruct sg.2; [done|]. simpl. lia.
Qed.

(** [getIndexFromLoc] at column 0 of an existing line does not throw and
    gives the offset of the start of the line. *)
Lemma getIndexFromLoc_line_start t n :
  (1 ≤ n ≤ Z.of_nat (length (segments t)))%Z →
  getIndexFromLoc t {| line := n; column := 0 |} = Some (offset_of_line t n).
Proof.
  intros Hn. unfold getIndexFromLoc, lineStartIndices, offset_of_line. simpl.
  rewrite startIndices_length.
  rewrite (proj2 (Z.leb_gt n 0)) by lia.
  rewrite (proj2 (Z.ltb_ge _ n)) by lia.
  rewrite startIndices_lookup by lia. rewrite Z.add_0_l, Z.add_0_r.
  destruct (n =? Z.of_nat (length (segments t)))%Z eqn:Hlast.
  - apply Z.eqb_eq in Hlast.
    rewrite (proj2 (Z.ltb_ge n _)) by lia. rewrite andb_false_l, orb_false_r, andb_true_l.
    pose proof (flat_take_le t (Z.to_nat (n - 1))).
    by rewrite (proj2 (Z.ltb_ge _ _)) by lia.
  - apply Z.eqb_neq in Hlast. rewrite andb_false_l, orb_false_l.
    rewrite (proj2 (Z.ltb_lt n _)) by lia. rewrite andb_true_l.
    rewrite startIndices_lookup by lia. simpl. rewrite Z.add_0_l.
    pose proof (flat_take_S_lt t (Z.to_nat (n - 1))) as Hlt.
    replace (S (Z.to_nat (n - 1))) with (Z.to_nat n) in Hlt by lia.
    by rewrite (proj2 (Z.leb_gt _ _)) by lia.
Qed.

Lemma text_cut t i : t = flat (take i (segments t)) ++ flat (drop i (segments t)).
Proof. by rewrite <- flat_app, take_drop, segments_flat. Qed.

Lemma take_prefix_length {A} (X Y t : list A) : t = X ++ Y → take (length X) t = X.
Proof. intros ->. by rewrite take_app_length. Qed.

Lemma drop_prefix_length {A} (X Y t : list A) : t = X ++ Y → drop (length X) t = Y.
Proof. intros ->. by rewrite drop_app_length. Qed.

(** Removing the text between two line starts removes whole segments. *)
Lemma removeRange_lines t i j :
  removeRange t (Z.of_nat (length (flat (take i (segments t)))),
                 Z.of_nat (length (flat (take j (segments t)))))
  = flat (take i (segments t)) ++ flat (drop j (segments t)).
Proof.
  unfold removeRange. simpl. rewrite !Nat2Z.id. f_equal.
  - eapply take_prefix_length, text_cut.
  - eapply drop_prefix_length, text_cut.
Qed.

Lemma removeRange_to_end t i :
  removeRange t (Z.of_nat (length (flat (take i (segments t)))), Z.of_nat (length t))
  = flat (take i (segments t)).
Proof.
  unfold removeRange. simpl. rewrite !Nat2Z.id, drop_all, app_nil_r.
  eapply take_prefix_length, text_cut.
Qed.

Lemma joins_dec A t2 : joins A t2 ∨ ¬ joins A t2.
Proof.
  unfold joins. destruct (last A) as [[l tm]|]; [|right; by intros [[? ?] _]].
  destruct (decide (tm = [CR])) as [->|Htm]; [|right; intros [[? [= _ ?]] _]; done].
  destruct (decide (head t2 = Some LF)) as [Hh|Hh]; [left|right; by intros [_ ?]].
  split; [by exists l|done].
Qed.

Lemma segments_LF t : segments (LF :: t) = ([], [LF]) :: segments t.
Proof. done. Qed.

(** The lines of a text from which the whole lines [B] were removed: the
    lines before and the lines after, except that a lone CR that ends the
    last line before joins a LF that is the whole first line after. *)
Lemma lines_after_cut t A B C :
  segments t = A ++ B ++ C → C ≠ [] →
  lines (flat A ++ flat C) = A.*1 ++ C.*1
  ∨ (A ≠ [] ∧ ∃ C', C = ([], [LF]) :: C' ∧ C' ≠ []
                     ∧ lines (flat A ++ flat C) = A.*1 ++ C'.*1).
Proof.
  intros Hs Hne.
  assert (B ++ C ≠ []) as HBC by (by destruct B, C).
  destruct (segments_suffix t A (B ++ C) Hs HBC) as (_ & _ & HA).
  destruct (segments_suffix t (A ++ B) C) as (HC & _ & _);
    [by rewrite <- app_assoc|done|].
  destruct (joins_dec A (flat C)) as [[[l Hl] Hh] | Hj].
  - right. split; [by destruct A|].
    destruct (flat C) as [|c t3] eqn:HfC; [done|]. injection Hh as ->.
    rewrite segments_LF in HC. exists (segments t3). split; [done|].
    split; [apply segments_nonempty|].
    apply last_Some in Hl as [A0 ->].
    apply Forall_app in HA as [_ [Hterm _]%Forall_cons].
    rewrite flat_app, <- app_assoc. unfold lines.
    rewrite (segments_prefix t A0 ((l, [CR]) :: B ++ C)).
    + replace (flat [(l, [CR])] ++ LF :: t3) with (l ++ [CR; LF] ++ t3)
        by (unfold flat; simpl; by rewrite app_nil_r, <- app_assoc).
      rewrite segments_line.
      * rewrite !fmap_app. simpl. by rewrite <- app_assoc.
      * destruct Hterm as [Hl' _]. split; [done|by left].
      * intros [[l' Hl'] _]. simpl in Hl'. congruence.
    + by rewrite Hs, <- app_assoc.
    + done.
    + intros [_ Hh]. destruct Hterm as [Hl' _]. simpl in Hl'.
      unfold flat in Hh. simpl in Hh. rewrite app_nil_r in Hh.
      destruct l as [|c l]; simpl in Hh; [done|].
      apply Forall_cons in Hl' as [Hc _]. by injection Hh as ->.
  - left. unfold lines. rewrite (segments_prefix t A (B ++ C)) by done.
    by rewrite HC, fmap_app.
Qed.

(** The lines of a text cut at the start of a line: the lines before,
    and an empty last line. *)
Lemma lines_before_cut t A C :
  segments t = A ++ C → C ≠ [] → lines (flat A) = A.*1 ++ [[]].
Proof.
  intros Hs Hne. unfold lines. rewrite <- (app_nil_r (flat A)).
  rewrite (segments_prefix t A C) by (try done; by intros [_ ?]).
  by rewrite fmap_app.
Qed.

End SegmentFacts.

(** ** Blank-line rule: anatomy of a report and of its fix *)
Module FixFacts.
Import SourceCode NoMultipleEmptyLines BlankRunSpec SegmentSpec.
Import BlankLineFacts MarkerFacts SegmentFacts.

Lemma create_valid config options :
  validate config = Some options → limits_valid (create options).
Proof.
  destruct config as [|v [|w rest]]; simpl; intros H; [|  |done].
  - injection H as <-. unfold limits_valid. simpl. lia.
  - destruct v as [| | | | | |fields]; simpl in H; try done.
    destruct (forallb _ fields); [|done].
    destruct (property fields "max") as [m|]; [|done].
    destruct m as [| |z| | | |]; simpl in H; try done.
    destruct (0 <=? z)%Z eqn:Hz; simpl in H; [|done].
    unfold optional_integer in H.
    destruct (property fields "maxEOF") as [[| |e| | | |]|]; simpl in H; try done;
      destruct (property fields "maxBOF") as [[| |b| | | |]|]; simpl in H; try done;
      repeat match type of H with
             | context [(0 <=? ?x)%Z] => destruct (0 <=? x)%Z eqn:?; simpl in H; try done
             end;
      injection H as <-; unfold limits_valid; simpl; lia.
Qed.

Lemma threshold_nonneg limits kind : limits_valid limits → (0 ≤ threshold limits kind)%Z.
Proof. intros (? & ? & ?). by destruct kind. Qed.

Lemma lines_length t : length (lines t) = length (segments t).
Proof. unfold lines. by rewrite length_fmap. Qed.

Lemma lines_last_empty t :
  last (lines t) = Some [] ∨ (last (lines t) ≠ Some [] ∧ last (lines t) ≠ None).
Proof.
  destruct (decide (last (lines t) = Some [])); [by left|right]. split; [done|].
  unfold lines. rewrite fmap_last. destruct (segments_last t) as [l ->]. done.
Qed.

Lemma totalLines_bounds t :
  (Z.of_nat (length (segments t)) - 1 ≤ totalLines t ≤ Z.of_nat (length (segments t)))%Z
  ∧ (1 ≤ Z.of_nat (length (segments t)))%Z.
Proof.
  unfold totalLines, allLines. pose proof (segments_nonempty t) as Hne.
  rewrite <- lines_length. unfold lines.
  destruct (segments t) as [|sg segs]; [done|].
  case_decide; [rewrite length_take|]; simpl; lia.
Qed.

Lemma allLines_lookup ls i :
  (i < length (allLines ls))%nat → allLines ls !! i = ls !! i.
Proof.
  unfold allLines. case_decide; [|done]. intros Hi.
  rewrite length_take in Hi. by rewrite lookup_take_lt by lia.
Qed.

(** What is known of a reported pair of markers. *)
Lemma reported_pair_facts limits t tl p c :
  limits_valid limits → reported_pair limits t tl p c →
  (0 ≤ p)%Z ∧ (c ≤ totalLines t + 1)%Z
  ∧ (0 ≤ threshold limits (classify (totalLines t) p c) < c - p - 1)%Z
  ∧ (∀ m, (p < m < c)%Z → m ∉ markers_from tl (allLines (lines t)) 0).
Proof.
  intros Hv [Hin Hex].
  eapply pairs_neighbours in Hin as (Hpc & Hp & Hc & Hgap);
    [|unfold totalLines; apply walked_sequence_sorted].
  rewrite exceeds_threshold in Hex. apply Z.ltb_lt in Hex. unfold run_length in Hex.
  pose proof (threshold_nonneg limits (classify (totalLines t) p c) Hv).
  split; [|split; [|split; [lia|]]].
  - apply elem_of_cons in Hp as [->|[Hp%markers_from_bounds|Hp]%elem_of_app]; [lia|lia|].
    apply list_elem_of_singleton in Hp as ->. pose proof (totalLines_bounds t). lia.
  - apply elem_of_app in Hc as [Hc%markers_from_bounds|Hc].
    + unfold totalLines. simpl in Hc. lia.
    + apply list_elem_of_singleton in Hc as ->. lia.
  - intros m Hm Hmk. apply (Hgap m); [|done]. right. apply elem_of_app. by left.
Qed.

(** The lines strictly inside a reported run are blank. *)
Lemma inside_run_blank limits t tl p c i sg :
  limits_valid limits → reported_pair limits t tl p c →
  (p ≤ Z.of_nat i < c - 1)%Z → segments t !! i = Some sg →
  trim_truthy sg.1 = false.
Proof.
  intros Hv Hpair Hi Hsg.
  destruct (reported_pair_facts _ _ _ _ _ Hv Hpair) as (Hp & Hc & Hthr & Hgap).
  destruct (trim_truthy sg.1) eqn:Htr; [exfalso|done].
  apply (Hgap (Z.of_nat i + 1)%Z); [lia|].
  apply elem_of_markers_from. exists i, sg.1. split; [|split; [done|by left]].
  rewrite allLines_lookup by (fold (totalLines t); unfold totalLines in Hc; lia).
  unfold lines. by rewrite list_lookup_fmap, Hsg.
Qed.

(** The fix callback does not throw, and its range runs from the start
    of the first line of the run to the start of the line the threshold
    leaves in place, or to the end of the text. *)
Lemma run_fix_value t p c thr :
  (0 ≤ p)%Z → (c ≤ totalLines t + 1)%Z → (0 ≤ thr < c - p - 1)%Z →
  run_fix t (totalLines t) p c thr
  = Some (offset_of_line t (p + 1),
          if (c - thr <=? totalLines t)%Z then offset_of_line t (c - thr)
          else Z.of_nat (length t)).
Proof.
  intros Hp Hc Hthr. unfold run_fix. pose proof (totalLines_bounds t) as [Hn HN].
  rewrite (getIndexFromLoc_line_start t (p + 1)) by lia. simpl.
  destruct (c - thr <=? totalLines t)%Z eqn:Hle; [|done].
  apply Z.leb_le in Hle. by rewrite (getIndexFromLoc_line_start t (c - thr)) by lia.
Qed.

Lemma make_report_fields limits t n p c :
  loc (make_report limits t n p c)
  = {| start := {| line := p + threshold limits (classify n p c) + 1; column := 0 |};
       end_ := {| line := c; column := 0 |} |}
  ∧ messageId (make_report limits t n p c) = message_of (classify n p c)
  ∧ report_max (make_report limits t n p c) = threshold limits (classify n p c)
  ∧ report_previous (make_report limits t n p c) = p
  ∧ report_current (make_report limits t n p c) = c
  ∧ fix_ (make_report limits t n p c)
    = run_fix t n p c (threshold limits (classify n p c)).
Proof.
  unfold report_max, report_previous, report_current, make_report.
  rewrite select_classify. simpl. repeat split. lia.
Qed.

End FixFacts.

(** ** Blank-line rule: scanning again after a fix *)
Module RescanFacts.
Import SourceCode NoMultipleEmptyLines BlankRunSpec SegmentSpec.
Import BlankLineFacts MarkerFacts SegmentFacts FixFacts.

Lemma last_drop_lt {A} (l : list A) i : (i < length l)%nat → last (drop i l) = last l.
Proof.
  intros Hi. rewrite !last_lookup, lookup_drop, length_drop. f_equal. lia.
Qed.

Lemma last_app_drop {A} (l1 l : list A) i :
  (i < length l)%nat → last (l1 ++ drop i l) = last l.
Proof.
  intros Hi. rewrite last_app, last_drop_lt by done.
  rewrite last_lookup. destruct (lookup_lt_is_Some_2 l (pred (length l))) as [x ->]; [lia|done].
Qed.

Lemma allLines_length ls :
  length (allLines ls)
  = if decide (last ls = Some []) then (length ls - 1)%nat else length ls.
Proof. unfold allLines. case_decide; [|done]. rewrite length_take. lia. Qed.

(** A marker of the walked sequence is a line with content or an
    excluded line. *)
Lemma elem_of_markers tl ls m :
  m ∈ markers_from tl ls 0 ↔
  ∃ x, ls !! Z.to_nat (m - 1) = Some x ∧ (1 ≤ m)%Z ∧ (trim_truthy x = true ∨ m ∈ tl).
Proof.
  rewrite elem_of_markers_from. split.
  - intros (i & x & Hi & -> & Hx). exists x. simpl.
    replace (Z.to_nat (Z.of_nat i + 1 - 1)) with i by lia. split; [done|]. split; [lia|done].
  - intros (x & Hi & Hm & Hx). exists (Z.to_nat (m - 1)), x.
    split; [done|]. split; [simpl; lia|done].
Qed.

(** The second component of a pair of the walked sequence is a marker or
    the sentinel, the first is 0 or a marker, and nothing of the sequence
    lies between. *)
Lemma walked_pair tl ls p c :
  (p, c) ∈ pairs 0 (markers_from tl ls 0 ++ [(Z.of_nat (length ls) + 1)%Z]) →
  (p < c)%Z
  ∧ (c ∈ markers_from tl ls 0 ∨ c = (Z.of_nat (length ls) + 1)%Z)
  ∧ (c ≤ Z.of_nat (length ls) + 1)%Z
  ∧ ∀ m, (p < m < c)%Z →
         (m ∉ markers_from tl ls 0) ∧ m ≠ (Z.of_nat (length ls) + 1)%Z.
Proof.
  intros Hin. eapply pairs_neighbours in Hin as (Hpc & _ & Hc & Hgap);
    [|apply walked_sequence_sorted].
  split; [done|]. split; [|split].
  - apply elem_of_app in Hc as [Hc|Hc%list_elem_of_singleton]; [by left|by right].
  - apply elem_of_app in Hc as [Hc%markers_from_bounds|Hc%list_elem_of_singleton];
      simpl in *; lia.
  - intros m Hm. split.
    + intros Hmk. apply (Hgap m); [|done]. right. apply elem_of_app. by left.
    + intros ->. apply (Hgap (Z.of_nat (length ls) + 1)%Z); [|done].
      right. apply elem_of_app. right. by apply list_elem_of_singleton.
Qed.

(** Scanning again after the lines [p + 1 .. p + k] of the run after
    marker [p] were removed, [k] being the excess of the run or one
    more: no pair that starts at [p] is reported. *)
Lemma rescan_after_cut limits t t' tl tl' p c j :
  limits_valid limits →
  reported_pair limits t tl p c →
  (c - threshold limits (classify (totalLines t) p c) ≤ totalLines t)%Z →
  (0 ≤ j ≤ 1)%Z → (j ≤ threshold limits (classify (totalLines t) p c))%Z →
  (Z.to_nat (c - threshold limits (classify (totalLines t) p c) - 1 + j)
   < length (lines t))%nat →
  lines t'
  = take (Z.to_nat p) (lines t)
    ++ drop (Z.to_nat (c - threshold limits (classify (totalLines t) p c) - 1 + j))
            (lines t) →
  reparsed_after p (c - threshold limits (classify (totalLines t) p c) - 1 + j - p) tl tl' →
  ∀ c', ¬ reported_pair limits t' tl' p c'.
Proof.
  intros Hv Hpair Hle Hj Hjthr Hd HL' Htl' c' [Hin' Hex'].
  destruct (reported_pair_facts _ _ _ _ _ Hv Hpair) as (Hp & Hc & Hthr & _).
  destruct Hpair as [Hin _]. unfold totalLines in Hin.
  apply walked_pair in Hin as (_ & Hcm & _ & Hgap).
  unfold totalLines in Hin'. apply walked_pair in Hin' as (Hpc' & Hcm' & Hc' & Hgap').
  fold (totalLines t) in *. fold (totalLines t') in *.
  set (thr := threshold limits (classify (totalLines t) p c)) in *.
  set (k := (c - thr - 1 + j - p)%Z) in *.
  pose proof (totalLines_bounds t) as [Hn HN]. rewrite <- lines_length in Hn, HN.
  (* the number of lines after the fix *)
  assert (totalLines t' = totalLines t - k)%Z as Hn'.
  { unfold totalLines. rewrite !allLines_length, HL', last_app_drop by done.
    case_decide; rewrite length_app, length_take, length_drop; lia. }
  (* a line after [p] is the line [k] further down of the old text *)
  assert (∀ i, (Z.to_nat p ≤ i)%nat → (Z.of_nat i < totalLines t')%Z →
               allLines (lines t') !! i = allLines (lines t) !! (i + Z.to_nat k)%nat) as Hlook.
  { intros i Hi Hlt. rewrite !allLines_lookup by (unfold totalLines in *; lia).
    rewrite HL', lookup_app_r by (rewrite length_take; lia).
    rewrite length_take, lookup_drop. f_equal. lia. }
  assert (∀ m, (p < m ≤ totalLines t')%Z →
               m ∈ markers_from tl' (allLines (lines t')) 0
               ↔ (m + k)%Z ∈ markers_from tl (allLines (lines t)) 0) as Hmark.
  { intros m Hm. pose proof (Hlook (Z.to_nat (m - 1))) as Hlk.
    replace (Z.to_nat (m - 1) + Z.to_nat k)%nat with (Z.to_nat (m + k - 1)) in Hlk by lia.
    pose proof (Htl' m) as Htlm.
    split; intros (x & Hx & _ & Hor)%elem_of_markers; apply elem_of_markers; exists x.
    - rewrite <- Hlk by lia. split; [done|]. split; [lia|]. destruct Hor; [by left|right].
      apply Htlm; [lia|done].
    - rewrite Hlk by lia. split; [done|]. split; [lia|]. destruct Hor; [by left|right].
      apply Htlm; [lia|done]. }
  (* the marker after the run is now at [c - k], at most [thr] lines after [p] *)
  assert (c' ≤ c - k)%Z as Hc'k.
  { destruct (decide (c' ≤ c - k)%Z) as [|Hgt]; [done|exfalso].
    destruct (Hgap' (c - k)%Z) as [Hnm Hns]; [lia|].
    destruct Hcm as [Hcm | ->]; [|lia].
    apply Hnm, Hmark.
    - apply markers_from_bounds in Hcm. unfold totalLines in *. simpl in Hcm. lia.
    - by replace (c - k + k)%Z with c by lia. }
  (* the run is judged against the same threshold *)
  assert (classify (totalLines t') p c' = classify (totalLines t) p c) as Hclass.
  { unfold classify. destruct (p =? 0)%Z; [done|].
    destruct (c =? totalLines t + 1)%Z eqn:Hceq.
    - apply Z.eqb_eq in Hceq. destruct Hcm' as [Hcm' | ->]; [|by rewrite Z.eqb_refl].
      exfalso. pose proof (markers_from_bounds _ _ _ _ Hcm') as Hb. simpl in Hb.
      fold (totalLines t') in Hb.
      destruct (Hgap (c' + k)%Z) as [Hnm _]; [lia|]. apply Hnm, Hmark; [lia|done].
    - apply Z.eqb_neq in Hceq. rewrite (proj2 (Z.eqb_neq c' _)); [done|lia]. }
  rewrite exceeds_threshold, Hclass in Hex'. fold thr in Hex'.
  apply Z.ltb_lt in Hex'. unfold run_length in Hex'. lia.
Qed.

(** Scanning again after everything that followed marker [p] was
    removed. *)
Lemma rescan_after_cut_to_end limits t t' tl' p :
  limits_valid limits → (0 ≤ p)%Z → (Z.to_nat p ≤ length (lines t))%nat →
  lines t' = take (Z.to_nat p) (lines t) ++ [[]] →
  ∀ c', ¬ reported_pair limits t' tl' p c'.
Proof.
  intros Hv Hp Hlen HL' c' [Hin' Hex'].
  unfold totalLines in Hin'. apply walked_pair in Hin' as (Hpc' & _ & Hc' & _).
  fold (totalLines t') in *.
  assert (totalLines t' = p) as Hn'.
  { unfold totalLines. rewrite allLines_length, HL', last_snoc.
    rewrite decide_True by done. rewrite length_app, length_take. simpl. lia. }
  rewrite exceeds_threshold in Hex'. apply Z.ltb_lt in Hex'. unfold run_length in Hex'.
  pose proof (threshold_nonneg limits (classify (totalLines t') p c') Hv). lia.
Qed.

End RescanFacts.

(** ** Tab rule: the regular expression and the match loop *)
Module TabFacts.
Import NoTabs TabRunSpec.

Lemma indexOfTab_None s :
  indexOfTab s = None → ∀ j, s !! j ≠ Some TAB.
Proof.
  induction s as [|c s IH]; simpl; [done|].
  destruct (c =? TAB)%N eqn:E; [done|].
  destruct (indexOfTab s); [done|]. intros _ [|j]; simpl.
  - intros [= ->]. by rewrite N.eqb_refl in E.
  - by apply IH.
Qed.

Lemma indexOfTab_Some s k :
  indexOfTab s = Some k →
  s !! k = Some TAB ∧ ∀ j, (j < k)%nat → s !! j ≠ Some TAB.
Proof.
  revert k. induction s as [|c s IH]; intros k; simpl; [done|].
  destruct (c =? TAB)%N eqn:E.
  - intros [= <-]. apply N.eqb_eq in E as ->. split; [done|lia].
  - destruct (indexOfTab s) as [k'|]; [|done]. intros [= <-].
    destruct (IH k' eq_refl) as [Hk Hlt]. split; [done|].
    intros [|j] Hj; simpl.
    + intros [= ->]. by rewrite N.eqb_refl in E.
    + apply Hlt. lia.
Qed.

Lemma tabRun_spec s :
  (∀ j, (j < tabRun s)%nat → s !! j = Some TAB)
  ∧ s !! tabRun s ≠ Some TAB
  ∧ (tabRun s ≤ length s)%nat.
Proof.
  induction s as [|c s (IH1 & IH2 & IH3)]; simpl.
  - repeat split; [lia|done|lia].
  - destruct (c =? TAB)%N eqn:E.
    + apply N.eqb_eq in E as ->. repeat split; [|done|lia].
      intros [|j] Hj; [done|]. apply IH1. lia.
    + repeat split; [lia| |lia]. simpl. intros [= ->]. by rewrite N.eqb_refl in E.
Qed.

Lemma tabRun_pos s : s !! O = Some TAB → (1 ≤ tabRun s)%nat.
Proof.
  destruct s as [|c s]; simpl; [done|]. intros [= ->]. rewrite N.eqb_refl. lia.
Qed.

Lemma exec_None l p p' :
  exec l p = (None, p') →
  p' = O ∧ ((p ≤ length l)%nat → ∀ j, (p ≤ j)%nat → l !! j ≠ Some TAB).
Proof.
  unfold exec. destruct (length l <? p)%nat eqn:E.
  - intros [= <-]. split; [done|]. apply Nat.ltb_lt in E. lia.
  - destruct (indexOfTab (drop p l)) as [k|] eqn:Hk; [done|].
    intros [= <-]. split; [done|]. intros _ j Hj.
    pose proof (indexOfTab_None _ Hk (j - p)%nat) as H.
    rewrite lookup_drop in H. by replace (p + (j - p))%nat with j in H by lia.
Qed.

Lemma exec_Some l p m p' :
  exec l p = (Some m, p') →
  (p ≤ index m)%nat
  ∧ (∀ j, (p ≤ j < index m)%nat → l !! j ≠ Some TAB)
  ∧ (1 ≤ matched_length m)%nat
  ∧ (∀ j, (index m ≤ j < index m + matched_length m)%nat → l !! j = Some TAB)
  ∧ l !! (index m + matched_length m)%nat ≠ Some TAB
  ∧ p' = (index m + matched_length m)%nat
  ∧ (p' ≤ length l)%nat.
Proof.
  unfold exec. destruct (length l <? p)%nat eqn:E; [done|].
  apply Nat.ltb_ge in E.
  destruct (indexOfTab (drop p l)) as [k|] eqn:Hk; [|done].
  intros [= <- <-]. simpl.
  destruct (indexOfTab_Some _ _ Hk) as [Hat Hbefore].
  destruct (tabRun_spec (drop (p + k) l)) as (Hrun & Hstop & Hlen).
  rewrite lookup_drop in Hat.
  assert (1 ≤ tabRun (drop (p + k) l))%nat as Hpos.
  { apply tabRun_pos. rewrite lookup_drop. by rewrite Nat.add_0_r. }
  rewrite length_drop in Hlen. apply lookup_lt_Some in Hat as Hlt.
  repeat split; try lia.
  - intros j Hj. specialize (Hbefore (j - p)%nat). rewrite lookup_drop in Hbefore.
    replace (p + (j - p))%nat with j in Hbefore by lia. apply Hbefore. lia.
  - intros j Hj. specialize (Hrun (j - (p + k))%nat). rewrite lookup_drop in Hrun.
    replace (p + k + (j - (p + k)))%nat with j in Hrun by lia. apply Hrun. lia.
  - by rewrite lookup_drop in Hstop.
Qed.

Lemma tab_run_end_unique l s e e' :
  is_tab_run l s e → is_tab_run l s e' → e = e'.
Proof.
  intros (H1 & H2 & _ & H4) (H1' & H2' & _ & H4').
  destruct (Nat.lt_total e e') as [Hlt | [-> | Hlt]]; [|done|].
  - exfalso. apply H4, H2'. lia.
  - exfalso. apply H4', H2. lia.
Qed.

Lemma tab_run_starts_with_tab l s e : is_tab_run l s e → l !! s = Some TAB.
Proof. intros (H1 & H2 & _). apply H2. lia. Qed.

Lemma reported_cons allow index_ l se runs :
  reported allow index_ l (se :: runs)
  = (if suppressed allow l se.1 then [] else [report_at index_ se])
    ++ reported allow index_ l runs.
Proof.
  unfold reported. rewrite filter_cons.
  destruct (suppressed allow l se.1).
  - by rewrite decide_False.
  - by rewrite decide_True.
Qed.

(** From a scan position, the loop visits the maximal runs that start at
    or after it, in order, and then leaves with [lastIndex = 0]; it needs
    one evaluation of its condition per run, and one more. *)
Lemma while_exec_visits allow index_ l k :
  ∀ p, (length l - p ≤ k)%nat → scan_pos l p →
  ∃ runs,
    Forall (fun se => (p ≤ se.1 < se.2)%nat ∧ (se.2 ≤ length l)%nat) runs
    ∧ StronglySorted (fun a b => (a.2 < b.1)%nat) runs
    ∧ (∀ s e, (s, e) ∈ runs ↔ is_tab_run l s e ∧ (p ≤ s)%nat)
    ∧ ∀ fuel acc,
        ((length runs < fuel)%nat →
         while_exec fuel allow index_ l (p, acc)
         = Some (O, acc ++ reported allow index_ l runs))
        ∧ ((fuel ≤ length runs)%nat →
           while_exec fuel allow index_ l (p, acc) = None).
Proof.
  induction k as [|k IH]; intros p Hk [Hp Hinv];
    destruct (exec l p) as [[m|] p'] eqn:He.
  1,3: destruct (exec_Some _ _ _ _ He) as (Hpi & Hbefore & Hpos & Htabs & Hstop & -> & Hlen).
  - exfalso. lia.
  - destruct m as [i n]. simpl in *.
    destruct (IH (i + n)%nat) as (runs & Hb & Hs & Hin & Hfuel); [lia|split; [lia|by right]|].
    assert (is_tab_run l i (i + n)) as Hrun.
    { repeat split; [lia|done| |done].
      destruct (decide (i = O)) as [->|Hi0]; [by left|right].
      destruct (decide (i = p)) as [->|Hip].
      - destruct Hinv as [->|Hinv]; [done|]. exfalso. apply Hinv, Htabs. lia.
      - apply Hbefore. lia. }
    exists ((i, (i + n)%nat) :: runs).
    split; [|split; [|split; [intros s e; split|intros fuel acc; split]]].
    + constructor; [simpl; lia|]. eapply Forall_impl; [exact Hb|]. simpl. lia.
    + constructor; [done|]. apply Forall_forall. intros [s e] Hse. simpl.
      apply Hin in Hse as [Hse Hle]. apply tab_run_starts_with_tab in Hse.
      destruct (decide (s = (i + n)%nat)) as [->|]; [done|lia].
    + intros [[= -> ->] | Hse]%elem_of_cons; [split; [done|lia]|].
      apply Hin in Hse as [Hse Hle]. split; [done|lia].
    + intros [Hse Hps]. pose proof (tab_run_starts_with_tab _ _ _ Hse) as Hs0.
      assert (i ≤ s)%nat as His.
      { destruct (decide (i ≤ s)%nat); [done|]. exfalso. apply (Hbefore s); [lia|done]. }
      apply elem_of_cons. destruct (decide (s = i)) as [->|Hne].
      * left. f_equal. eapply tab_run_end_unique; done.
      * right. apply Hin. split; [done|].
        destruct (decide (i + n ≤ s)%nat); [done|]. exfalso.
        destruct Hse as (_ & _ & [->|Hprev] & _); [lia|].
        apply Hprev, Htabs. lia.
    + intros Hf. destruct fuel as [|fuel]; [simpl in Hf; lia|]. simpl in Hf.
      simpl. rewrite He. rewrite reported_cons. unfold suppressed at 1. simpl.
      destruct (allow && negb (anyNonWhitespaceRegex_test (take i l))).
      * simpl. apply (proj1 (Hfuel fuel acc)). lia.
      * rewrite (proj1 (Hfuel fuel _)) by lia.
        rewrite <- app_assoc. unfold report_at, make_report. simpl.
        by rewrite Nat2Z.inj_add.
    + intros Hf. destruct fuel as [|fuel]; [done|]. simpl in Hf.
      simpl. rewrite He. simpl.
      destruct (allow && negb (anyNonWhitespaceRegex_test (take i l)));
        apply (proj2 (Hfuel fuel _)); lia.
  - destruct (exec_None _ _ _ He) as [-> Hnone]. exists [].
    split; [|split; [|split; [intros s e; split|intros fuel acc; split]]].
    + constructor.
    + constructor.
    + by intros ?%elem_of_nil.
    + intros [Hse Hps]. exfalso.
      apply (Hnone Hp s Hps). by eapply tab_run_starts_with_tab.
    + intros Hf. destruct fuel; [simpl in Hf; lia|]. simpl. rewrite He.
      unfold reported. simpl. by rewrite app_nil_r.
    + intros Hf. simpl in Hf. by replace fuel with O by lia.
  - destruct (exec_None _ _ _ He) as [-> Hnone]. exists [].
    split; [|split; [|split; [intros s e; split|intros fuel acc; split]]].
    + constructor.
    + constructor.
    + by intros ?%elem_of_nil.
    + intros [Hse Hps]. exfalso.
      apply (Hnone Hp s Hps). by eapply tab_run_starts_with_tab.
    + intros Hf. destruct fuel; [simpl in Hf; lia|]. simpl. rewrite He.
      unfold reported. simpl. by rewrite app_nil_r.
    + intros Hf. simpl in Hf. by replace fuel with O by lia.
Qed.

Lemma report_at_inj i s e i' s' e' :
  report_at i (s, e) = report_at i' (s', e') → i = i' ∧ s = s' ∧ e = e'.
Proof. unfold report_at. simpl. intros [= ? ? ?]. lia. Qed.

Lemma anyNonWhitespace_false s :
  anyNonWhitespaceRegex_test s = false ↔ ∀ i c, s !! i = Some c → isWhiteSpace c = true.
Proof.
  unfold anyNonWhitespaceRegex_test. induction s as [|c s IH]; simpl.
  - split; [by intros _ i c ?|done].
  - rewrite orb_false_iff, IH, negb_false_iff. split.
    + intros [Hc Hs] [|i] c'; simpl; [by intros [= <-]|apply Hs].
    + intros H. split; [by apply (H O)|]. intros i c'. apply (H (S i)).
Qed.

Lemma suppressed_true_iff allow l s :
  (s ≤ length l)%nat →
  suppressed allow l s = true ↔ allow = true ∧ within_indentation l s.
Proof.
  intros Hs. unfold suppressed, within_indentation.
  rewrite andb_true_iff, negb_true_iff, anyNonWhitespace_false.
  split; intros [Ha H]; (split; [done|]).
  - intros i c Hi Hc. apply (H i). by rewrite lookup_take_lt.
  - intros i c Hc. apply lookup_take_Some in Hc as [Hc Hi]. by apply (H i).
Qed.

Lemma runs_length_bound (runs : list (nat * nat)) p L :
  (p ≤ L)%nat →
  Forall (fun se => (p ≤ se.1 < se.2)%nat ∧ (se.2 ≤ L)%nat) runs →
  StronglySorted (fun a b => (a.2 < b.1)%nat) runs →
  (p + length runs ≤ L)%nat.
Proof.
  revert p. induction runs as [|[s e] runs IH]; intros p Hp Hb Hs; simpl.
  - lia.
  - apply Forall_cons in Hb as [Hse Hb]. apply StronglySorted_cons in Hs as [Hall Hs].
    simpl in *. assert (e + length runs ≤ L)%nat; [|lia].
    apply IH; [lia| |done]. rewrite Forall_forall in *.
    intros se Hin. specialize (Hb _ Hin). specialize (Hall _ Hin). lia.
Qed.

Lemma runs_NoDup (runs : list (nat * nat)) p L :
  Forall (fun se => (p ≤ se.1 < se.2)%nat ∧ (se.2 ≤ L)%nat) runs →
  StronglySorted (fun a b => (a.2 < b.1)%nat) runs →
  NoDup runs.
Proof.
  intros Hb Hs. induction Hs as [|[s e] runs Hs IH Hall]; [constructor|].
  apply Forall_cons in Hb as [Hse Hb]. constructor; [|by apply IH].
  intros Hin. rewrite Forall_forall in Hall. specialize (Hall _ Hin). simpl in *. lia.
Qed.

(** The loop over the lines: the reports added are, without repetition,
    those of the maximal runs that are not skipped, and [lastIndex] is 0
    again after every line. *)
Lemma forEach_line_reports allow ls :
  ∀ index0, ∃ reports,
    (∀ fuel acc, Forall (fun l => (length l < fuel)%nat) ls →
                 forEach_line fuel allow ls index0 (O, acc) = Some (O, acc ++ reports))
    ∧ NoDup reports
    ∧ ∀ r, r ∈ reports ↔
           ∃ i s e, reported_run allow ls i s e ∧ r = report_at (index0 + i) (s, e).
Proof.
  induction ls as [|l ls IH]; intros index0.
  - exists []. split; [|split].
    + intros fuel acc _. simpl. by rewrite app_nil_r.
    + constructor.
    + intros r. split; [by intros ?%elem_of_nil|].
      intros (i & s & e & (l & Hl & _) & _). done.
  - destruct (while_exec_visits allow index0 l (length l) O) as (runs & Hb & Hs & Hin & Hfuel);
      [lia|split; [lia|by left]|].
    destruct (IH (S index0)) as (reports' & Hrun' & Hnd' & Hin').
    assert (length runs ≤ length l)%nat as Hlen.
    { pose proof (runs_length_bound _ O _ (Nat.le_0_l _) Hb Hs). lia. }
    exists (reported allow index0 l runs ++ reports'). split; [|split].
    + intros fuel acc [Hl Hls]%Forall_cons. simpl.
      rewrite (proj1 (Hfuel fuel acc)) by lia. simpl.
      rewrite Hrun' by done. by rewrite app_assoc.
    + apply NoDup_app. split; [|split; [|done]].
      * unfold reported. apply NoDup_fmap_2_strong.
        -- intros [s e] [s' e'] _ _ Heq. apply report_at_inj in Heq as (_ & -> & ->). done.
        -- apply NoDup_filter. eapply runs_NoDup; done.
      * intros r Hr Hr'. apply Hin' in Hr' as (i & s & e & _ & ->).
        unfold reported in Hr. apply list_elem_of_fmap in Hr as ([s' e'] & Heq & _).
        apply report_at_inj in Heq as (Hi & _). lia.
    + intros r. rewrite elem_of_app, Hin'. unfold reported.
      rewrite list_elem_of_fmap. split.
      * intros [([s e] & -> & [Hsup Hse]%list_elem_of_filter) | (i & s & e & (l' & Hl' & Hrest) & ->)].
        -- exists O, s, e. split; [|by rewrite Nat.add_0_r].
           exists l. split; [done|]. split; [|done]. by apply Hin in Hse as [? _].
        -- exists (S i), s, e. split; [by exists l'|]. f_equal. lia.
      * intros ([|i] & s & e & (l' & Hl' & Hse & Hsup) & ->); simpl in Hl'.
        -- left. injection Hl' as <-. exists (s, e). split; [by rewrite Nat.add_0_r|].
           apply list_elem_of_filter. split; [done|]. apply Hin. split; [done|lia].
        -- right. exists i, s, e. split; [by exists l'|]. f_equal. lia.
Qed.


End TabFacts.

(** ** Configuration of the blank-line rule *)
Module BlankLineConfig.
Import SourceCode NoMultipleEmptyLines BlankRunSpec BlankLineFacts.

Lemma validate_cases config options :
  validate config = Some options →
  (config = [] ∧ options = [])
  ∨ ∃ fields m oe ob,
      config = [JObject fields]
      ∧ options = [{| opt_max := m; opt_maxEOF := oe; opt_maxBOF := ob |}]
      ∧ property fields "max" = Some (JInteger m) ∧ (0 ≤ m)%Z
      ∧ optional_integer fields "maxEOF" = Some oe
      ∧ optional_integer fields "maxBOF" = Some ob.
Proof.
  destruct config as [|v [|w rest]]; simpl; intros H; [left; by injection H as <-| |done].
  right. destruct v as [| | | | | |fields]; simpl in H; try done.
  destruct (forallb _ fields); [|done].
  destruct (property fields "max") as [m|] eqn:Hm; [|done].
  destruct m as [| |z| | | |]; simpl in H; try done.
  destruct (0 <=? z)%Z eqn:Hz; simpl in H; [|done].
  destruct (optional_integer fields "maxEOF") as [oe|] eqn:He; simpl in H; [|done].
  destruct (optional_integer fields "maxBOF") as [ob|] eqn:Hb; simpl in H; [|done].
  injection H as <-. exists fields, z, oe, ob. repeat split; try done. lia.
Qed.

Lemma optional_integer_absent fields key o :
  optional_integer fields key = Some o → property fields key = None → o = None.
Proof. unfold optional_integer. intros H Hp. rewrite Hp in H. by injection H. Qed.

Lemma optional_integer_present fields key o v :
  optional_integer fields key = Some o → property fields key = Some v →
  ∃ z, o = Some z ∧ v = JInteger z ∧ (0 ≤ z)%Z.
Proof.
  unfold optional_integer. intros H Hp. rewrite Hp in H.
  destruct v as [| |z| | | |]; simpl in H; try done.
  destruct (0 <=? z)%Z eqn:Hz; simpl in H; [|done].
  injection H as <-. exists z. repeat split; try done. lia.
Qed.

(** C8. In a validated configuration, a beginning-of-file threshold
    that is not supplied equals [max], an end-of-file threshold that is
    not supplied equals [max], and each of the three thresholds, when
    supplied, is the supplied value whatever the other two are. *)
Theorem unsupplied_edge_thresholds_equal_max config options :
  validate config = Some options →
  (supplied config "maxBOF" = None → maxBOF (create options) = max (create options))
  ∧ (supplied config "maxEOF" = None → maxEOF (create options) = max (create options))
  ∧ (∀ v, supplied config "max" = Some v → v = JInteger (max (create options)))
  ∧ (∀ v, supplied config "maxBOF" = Some v → v = JInteger (maxBOF (create options)))
  ∧ (∀ v, supplied config "maxEOF" = Some v → v = JInteger (maxEOF (create options))).
Proof.
  intros [[-> ->] | (fields & m & oe & ob & -> & -> & Hm & Hpos & He & Hb)]%validate_cases.
  - simpl. repeat split; done.
  - simpl. repeat split.
    + intros Hs. by rewrite (optional_integer_absent _ _ _ Hb Hs).
    + intros Hs. by rewrite (optional_integer_absent _ _ _ He Hs).
    + intros v Hv. congruence.
    + intros v Hv. by destruct (optional_integer_present _ _ _ _ Hb Hv) as (z & -> & -> & _).
    + intros v Hv. by destruct (optional_integer_present _ _ _ _ He Hv) as (z & -> & -> & _).
Qed.

Lemma unsupplied_edge_thresholds_equal_max_witness :
  let config := [JObject [("maxEOF", JInteger 0); ("max", JInteger 3)]] in
  let options := [{| opt_max := 3; opt_maxEOF := Some 0%Z; opt_maxBOF := None |}] in
  maxBOF (create options) = 3%Z
  ∧ JInteger 0 = JInteger (maxEOF (create options)).
Proof.
  intros config options.
  destruct (unsupplied_edge_thresholds_equal_max config options eq_refl)
    as (HB & _ & _ & _ & HE).
  split; [exact (HB eq_refl) | exact (HE _ eq_refl)].
Defined.

(** C7, as the claim states it, fails: a configuration with no option
    object has no [max], is accepted, and the rule runs with the
    default 2. *)
Lemma missing_max_runs_with_default_2 :
  supplied [] "max" = None
  ∧ validate [] = Some []
  ∧ max (create []) = 2%Z
  ∧ fmap (M := option) (fmap (M := list) report_run) (run [] (js "a\n\n\n\nb\n") [])
    = Some [(consecutiveBlank, 2%Z, 1%Z, 5%Z)].
Proof. repeat split; vm_compute; reflexivity. Qed.

(** C7, amended. When an option object is supplied, [max] is required:
    an option object without [max] is rejected and no scan runs.  A
    configuration is accepted only when it holds no option object, and
    then the rule runs with [max = maxEOF = maxBOF = 2], or when it
    holds one option object whose [max] is a non-negative integer,
    which is the interior threshold used. *)
Theorem option_object_without_max_rejected :
  (∀ fields rest text_ templates,
      property fields "max" = None →
      run (JObject fields :: rest) text_ templates = None)
  ∧ (∀ config options,
        validate config = Some options →
        (config = [] ∧ create options = {| max := 2; maxEOF := 2; maxBOF := 2 |})
        ∨ ∃ fields m, config = [JObject fields]
                      ∧ property fields "max" = Some (JInteger m)
                      ∧ (0 ≤ m)%Z ∧ max (create options) = m).
Proof.
  split.
  - intros fields rest text_ templates Hm. unfold run.
    destruct (validate (JObject fields :: rest)) as [options|] eqn:Hv; [|done].
    apply validate_cases in Hv as [[? _] | (f & m & oe & ob & Hc & _ & Hm' & _)]; [done|].
    injection Hc as <- _. congruence.
  - intros config options
      [[-> ->] | (fields & m & oe & ob & -> & -> & Hm & Hpos & _)]%validate_cases.
    + by left.
    + right. by exists fields, m.
Qed.

Lemma option_object_without_max_rejected_witness :
  run [JObject [("maxEOF", JInteger 1)]] (js "a\n\n\n\nb\n") [] = None.
Proof.
  exact (proj1 option_object_without_max_rejected
               [("maxEOF", JInteger 1)] [] (js "a\n\n\n\nb\n") [] eq_refl).
Defined.

End BlankLineConfig.

(** ** Measuring and judging blank runs *)
Module BlankRuns.
Import SourceCode NoMultipleEmptyLines BlankRunSpec BlankLineFacts.

Lemma Program_exit_judge_runs limits t tl :
  report_run <$> Program_exit limits t tl
  = (fun e : RunKind * Z * Z => (message_of e.1.1, threshold limits e.1.1, e.1.2, e.2))
      <$> judge_runs limits (totalLines t) 0 (marker_sequence tl (allLines (lines t))).
Proof.
  rewrite Program_exit_pairs, judge_runs_pairs, markers_marker_sequence.
  unfold totalLines. rewrite <- !list_fmap_compose.
  apply list_fmap_ext. intros i [p c] _. simpl. apply report_run_make.
Qed.

(** C1. The marker sequence the rule folds over is the sorted non-blank
    line numbers followed by the sentinel [totalLines + 1]; the reports
    are, in order, one per consecutive pair [(previous, current)] of
    that sequence, starting from [previous = 0], whose blank run
    [current - previous - 1] exceeds the threshold of its kind:
    [maxBOF] when [previous = 0], else [maxEOF] when
    [current = totalLines + 1], else [max].  With [maxBOF = 0],
    [max = 5], [maxEOF = 1], three leading blank lines, an interior run
    of six and two trailing blank lines give exactly one report of each
    kind. *)
Theorem blank_runs_judged_against_their_threshold :
  (∀ limits t tl,
      nonEmptyLineNumbers tl (allLines (lines t)) ++ [(totalLines t + 1)%Z]
      = marker_sequence tl (allLines (lines t))
      ∧ report_run <$> Program_exit limits t tl
        = (fun e : RunKind * Z * Z =>
             (message_of e.1.1, threshold limits e.1.1, e.1.2, e.2))
            <$> judge_runs limits (totalLines t) 0
                           (marker_sequence tl (allLines (lines t))))
  ∧ fmap (M := option) (fmap (M := list) report_run)
         (run [JObject [("maxBOF", JInteger 0); ("max", JInteger 5);
                        ("maxEOF", JInteger 1)]]
              (js "\n\n\na\n\n\n\n\n\n\nb\n\n\n") [])
    = Some [(blankBeginningOfFile, 0, 0, 4);
            (consecutiveBlank, 5, 4, 11);
            (blankEndOfFile, 1, 11, 14)]%Z.
Proof.
  split.
  - intros limits t tl. split.
    + rewrite nonEmptyLineNumbers_markers. apply markers_marker_sequence.
    + apply Program_exit_judge_runs.
  - vm_compute. reflexivity.
Qed.

Lemma markers_from_all_blank tl l index :
  Forall (fun x => trim_truthy x = false) l →
  (∀ m, (Z.of_nat index < m ≤ Z.of_nat (index + length l))%Z → m ∉ tl) →
  markers_from tl l index = [].
Proof.
  revert index. induction l as [|x l IH]; intros index Hb Htl; simpl; [done|].
  apply Forall_cons in Hb as [Hx Hl]. rewrite Hx. simpl.
  rewrite bool_decide_eq_false_2.
  - simpl. apply IH; [done|]. intros m Hm. apply Htl. simpl. lia.
  - apply Htl. simpl. lia.
Qed.

(** C10. When every line is blank and none is excluded, the marker
    sequence is the sentinel alone, and the single run is judged as a
    beginning-of-file run: it is reported exactly when the number of
    lines exceeds [maxBOF], with the message [blankBeginningOfFile] and
    the threshold [maxBOF], whatever [maxEOF] and [max] are. *)
Theorem entirely_blank_file_is_beginning_of_file limits t tl :
  Forall (fun x => trim_truthy x = false) (allLines (lines t)) →
  (∀ m, (1 ≤ m ≤ totalLines t)%Z → m ∉ tl) →
  nonEmptyLineNumbers tl (allLines (lines t)) ++ [(totalLines t + 1)%Z]
  = [(totalLines t + 1)%Z]
  ∧ report_run <$> Program_exit limits t tl
    = if (maxBOF limits <? totalLines t)%Z
      then [(blankBeginningOfFile, maxBOF limits, 0%Z, (totalLines t + 1)%Z)]
      else [].
Proof.
  intros Hb Htl.
  assert (markers_from tl (allLines (lines t)) 0 = []) as Hm.
  { apply markers_from_all_blank; [done|]. intros m Hm. apply Htl.
    unfold totalLines. lia. }
  split.
  - by rewrite nonEmptyLineNumbers_markers, Hm.
  - rewrite Program_exit_pairs, Hm. fold (totalLines t). simpl.
    rewrite filter_cons, filter_nil, exceeds_threshold.
    unfold classify, run_length. simpl.
    replace (totalLines t + 1 - 0 - 1)%Z with (totalLines t) by lia.
    destruct (maxBOF limits <? totalLines t)%Z eqn:E.
    + rewrite decide_True by done. simpl. by rewrite report_run_make.
    + by rewrite decide_False.
Qed.

Lemma entirely_blank_file_is_beginning_of_file_witness :
  report_run <$> Program_exit {| max := 7; maxEOF := 5; maxBOF := 1 |} (js "\n \n\n") ∅
  = [(blankBeginningOfFile, 1, 0, 4)]%Z.
Proof.
  refine (proj2 (entirely_blank_file_is_beginning_of_file
                   {| max := 7; maxEOF := 5; maxBOF := 1 |} (js "\n \n\n") ∅ _ _)).
  - vm_compute. repeat constructor.
  - intros m _. apply not_elem_of_empty.
Defined.

End BlankRuns.

(** ** Lines inside template literals *)
Module LiteralLines.
Import SourceCode NoMultipleEmptyLines BlankRunSpec BlankLineFacts MarkerFacts.





End LiteralLines.

(** ** The diagnostic of an excessive run and its fix *)
Module BlankLineFix.
Import SourceCode NoMultipleEmptyLines BlankRunSpec SegmentSpec.
Import BlankLineFacts MarkerFacts SegmentFacts FixFacts RescanFacts.

(** C2, as the claim states it, fails: on ["a\n\n \nb"] with [max = 1]
    the first excess line, where the diagnostic starts, is line 3, at
    offset 3, but the fix deletes the range from offset 2, the start of
    line 2, to offset 3; line 3 with its blank is kept, and the text
    differs from the one left by deleting from the first excess line to
    the next non-blank line. *)
Lemma fix_range_starts_before_first_excess_line :
  ∃ r, lint [{| opt_max := 1; opt_maxEOF := None; opt_maxBOF := None |}]
            (js "a\n\n \nb") [] = [r]
       ∧ report_previous r = 1%Z ∧ report_max r = 1%Z
       ∧ line (start (loc r)) = 3%Z
       ∧ fix_ r = Some (2, 3)%Z
       ∧ getIndexFromLoc (js "a\n\n \nb") (start (loc r)) = Some 3%Z
       ∧ getIndexFromLoc (js "a\n\n \nb") (end_ (loc r)) = Some 5%Z
       ∧ removeRange (js "a\n\n \nb") (2, 3)%Z = js "a\n \nb"
       ∧ removeRange (js "a\n\n \nb") (3, 5)%Z = js "a\n\nb".
Proof. eexists. repeat split; vm_compute; reflexivity. Qed.

(** C2, amended. For every report of a pass with validated options, with
    [p] the marker before the run, [c] the marker after it and [thr] the
    threshold: the run is longer than [thr]; the diagnostic spans from
    line [p + thr + 1], column 0, to line [c], column 0; the fix does not
    throw and removes the range that starts at the start of line [p + 1],
    the first blank line of the run.  When [c - thr] is a line of the
    text the range ends at the start of that line: exactly the
    [c - p - 1 - thr] first lines of the run, all blank, are deleted with
    their terminators, and the [thr] last ones are kept.  Otherwise the
    run is at the end of the file with [thr = 0], and the range ends at
    the end of the text. *)
Theorem fix_removes_first_lines_of_run config options t templates r :
  validate config = Some options →
  r ∈ lint options t templates →
  (0 ≤ report_previous r)%Z
  ∧ (report_current r ≤ totalLines t + 1)%Z
  ∧ (0 ≤ report_max r < report_current r - report_previous r - 1)%Z
  ∧ loc r = {| start := {| line := report_previous r + report_max r + 1; column := 0 |};
               end_ := {| line := report_current r; column := 0 |} |}
  ∧ ∃ rangeStart rangeEnd,
      fix_ r = Some (rangeStart, rangeEnd)
      ∧ getIndexFromLoc t {| line := report_previous r + 1; column := 0 |} = Some rangeStart
      ∧ ((report_current r - report_max r ≤ totalLines t)%Z →
         getIndexFromLoc t {| line := report_current r - report_max r; column := 0 |}
         = Some rangeEnd
         ∧ ∃ removed,
             segments t
             = take (Z.to_nat (report_previous r)) (segments t) ++ removed
               ++ drop (Z.to_nat (report_current r - report_max r - 1)) (segments t)
             ∧ Z.of_nat (length removed)
               = (report_current r - report_previous r - 1 - report_max r)%Z
             ∧ Forall (fun sg => trim_truthy sg.1 = false) removed
             ∧ removeRange t (rangeStart, rangeEnd)
               = flat (take (Z.to_nat (report_previous r)) (segments t))
                 ++ flat (drop (Z.to_nat (report_current r - report_max r - 1)) (segments t)))
      ∧ ((totalLines t < report_current r - report_max r)%Z →
         rangeEnd = Z.of_nat (length t)
         ∧ report_current r = (totalLines t + 1)%Z ∧ report_max r = 0%Z
         ∧ removeRange t (rangeStart, rangeEnd)
           = flat (take (Z.to_nat (report_previous r)) (segments t))).
Proof.
  intros Hval%create_valid Hr. unfold lint in Hr.
  apply elem_of_Program_exit in Hr as (p & c & Hin & Hex & ->).
  set (limits := create options) in *. set (tl := foldl TemplateLiteral ∅ templates) in *.
  assert (reported_pair limits t tl p c) as Hpair by done.
  destruct (reported_pair_facts _ _ _ _ _ Hval Hpair) as (Hp & Hc & Hthr & Hgap).
  destruct (make_report_fields limits t (totalLines t) p c)
    as (Hloc & _ & -> & -> & -> & Hfix).
  set (thr := threshold limits (classify (totalLines t) p c)) in *.
  pose proof (totalLines_bounds t) as [Hn HN].
  split; [done|]. split; [done|]. split; [done|]. split; [done|].
  rewrite Hfix, run_fix_value by done.
  eexists _, _. split; [done|]. split; [by rewrite getIndexFromLoc_line_start by lia|].
  split.
  - intros Hle. rewrite (proj2 (Z.leb_le _ _)) by done.
    split; [by rewrite getIndexFromLoc_line_start by lia|].
    exists (take (Z.to_nat (c - p - 1 - thr)) (drop (Z.to_nat p) (segments t))).
    split; [|split; [|split]].
    + rewrite <- (take_drop (Z.to_nat p) (segments t)) at 1. f_equal.
      rewrite <- (take_drop (Z.to_nat (c - p - 1 - thr)) (drop (Z.to_nat p) (segments t))) at 1.
      f_equal. rewrite drop_drop. f_equal. lia.
    + rewrite length_take, length_drop. lia.
    + apply Forall_forall. intros sg Hsg. apply list_elem_of_lookup in Hsg as [i Hi].
      apply lookup_take_Some in Hi as [Hi Hlt]. rewrite lookup_drop in Hi.
      eapply (inside_run_blank limits t tl p c); [done|done| |exact Hi]. lia.
    + unfold offset_of_line.
      replace (Z.to_nat (p + 1 - 1)) with (Z.to_nat p) by lia.
      apply removeRange_lines.
  - intros Hgt. rewrite (proj2 (Z.leb_gt _ _)) by done.
    split; [done|]. split; [lia|]. split; [lia|].
    unfold offset_of_line. replace (Z.to_nat (p + 1 - 1)) with (Z.to_nat p) by lia.
    apply removeRange_to_end.
Qed.

Lemma fix_removes_first_lines_of_run_witness :
  ∃ r, lint [{| opt_max := 1; opt_maxEOF := None; opt_maxBOF := None |}]
            (js "a\n\n \nb") [] = [r]
       ∧ (0 ≤ report_max r < report_current r - report_previous r - 1)%Z.
Proof.
  eexists. split; [vm_compute; reflexivity|].
  refine (proj1 (proj2 (proj2
    (fix_removes_first_lines_of_run
       [JObject [("max", JInteger 1)]]
       [{| opt_max := 1; opt_maxEOF := None; opt_maxBOF := None |}]
       (js "a\n\n \nb") [] _ eq_refl _)))).
  vm_compute. left.
Defined.

(** An excluded line that follows a line that is not excluded is the
    first line of a literal part that spans several lines. *)
Lemma first_excluded_line_opens templates m :
  m ∈ foldl TemplateLiteral ∅ templates →
  (m - 1)%Z ∉ foldl TemplateLiteral ∅ templates →
  ∃ node q, node ∈ templates ∧ q ∈ ESTree.quasis node
            ∧ line (start (ESTree.loc q)) = m
            ∧ (line (start (ESTree.loc q)) < line (end_ (ESTree.loc q)))%Z.
Proof.
  intros [?%not_elem_of_empty | (node & q & Hn & Hq & Hcov)]%elem_of_templateLiteralLines
         Hprev; [done|].
  exists node, q. split; [done|]. split; [done|]. unfold covers in Hcov.
  assert (¬ covers q (m - 1)%Z) as Hncov.
  { intros Hc. apply Hprev, elem_of_templateLiteralLines. right. by exists node, q. }
  unfold covers in Hncov. lia.
Qed.

(** C6. For validated options, take any report of a pass and apply its
    fix; scan the corrected text again with the same options, the
    excluded lines being those of the corrected text (the lines after the
    run moved up by the number of lines removed): no report of the second
    pass is for the run that follows the same marker.  The input
    ["a\n\n\n\n\nb\n"] with [max = 1] gives exactly one report, an
    interior one, whose fix leaves ["a\n\nb\n"], one blank line, and
    that text gives no report. *)
Theorem fixed_run_is_not_reported_again :
  (∀ config options t templates templates' r range,
      validate config = Some options →
      opens_on_content t templates →
      r ∈ lint options t templates →
      fix_ r = Some range →
      reparsed_after (report_previous r)
                     (Z.of_nat (length (lines t))
                      - Z.of_nat (length (lines (removeRange t range))))
                     (foldl TemplateLiteral ∅ templates)
                     (foldl TemplateLiteral ∅ templates') →
      ∀ r', r' ∈ lint options (removeRange t range) templates' →
            report_previous r' ≠ report_previous r)
  ∧ ∃ r, lint [{| opt_max := 1; opt_maxEOF := None; opt_maxBOF := None |}]
              (js "a\n\n\n\n\nb\n") [] = [r]
         ∧ messageId r = consecutiveBlank
         ∧ fix_ r = Some (2, 5)%Z
         ∧ removeRange (js "a\n\n\n\n\nb\n") (2, 5)%Z = js "a\n\nb\n"
         ∧ lint [{| opt_max := 1; opt_maxEOF := None; opt_maxBOF := None |}]
                (js "a\n\nb\n") [] = [].
Proof.
  split; [|eexists; repeat split; vm_compute; reflexivity].
  intros config options t templates templates' r range Hval%create_valid Hopen Hr Hfix
         Hre r' Hr' Heq.
  unfold lint in Hr, Hr'.
  set (limits := create options) in *.
  set (tl := foldl TemplateLiteral ∅ templates) in *.
  set (tl' := foldl TemplateLiteral ∅ templates') in *.
  apply elem_of_Program_exit in Hr as (p & c & Hin & Hex & ->).
  apply elem_of_Program_exit in Hr' as (p' & c' & Hin' & Hex' & ->).
  destruct (make_report_fields limits t (totalLines t) p c) as (_ & _ & _ & Hprev & _ & Hf).
  destruct (make_report_fields limits (removeRange t range)
                               (totalLines (removeRange t range)) p' c')
    as (_ & _ & _ & Hprev' & _ & _).
  rewrite Hprev in Hre. rewrite Hprev, Hprev' in Heq. subst p'. clear Hprev Hprev'.
  assert (reported_pair limits t tl p c) as Hpair by done.
  destruct (reported_pair_facts _ _ _ _ _ Hval Hpair) as (Hp & Hc & Hthr & Hgap).
  rewrite Hf, run_fix_value in Hfix by done. clear Hf.
  set (thr := threshold limits (classify (totalLines t) p c)) in *.
  pose proof (totalLines_bounds t) as [Hn HN].
  assert (offset_of_line t (p + 1)
          = Z.of_nat (length (flat (take (Z.to_nat p) (segments t))))) as Hstart.
  { unfold offset_of_line. by replace (Z.to_nat (p + 1 - 1)) with (Z.to_nat p) by lia. }
  revert Hin' Hex'. generalize c'. clear c'. intros c' Hin' Hex'.
  assert (reported_pair limits (removeRange t range) tl' p c') as Hpair' by done.
  clear Hin' Hex'. revert Hpair'.
  destruct (c - thr <=? totalLines t)%Z eqn:Hle.
  - apply Z.leb_le in Hle. injection Hfix as <-.
    rewrite Hstart in *. unfold offset_of_line in *.
    rewrite removeRange_lines in *.
    set (a := Z.to_nat p) in *. set (b := Z.to_nat (c - thr - 1)) in *.
    assert (drop b (segments t) ≠ []) as HC.
    { intros Hd%(f_equal length). rewrite length_drop in Hd. simpl in Hd. lia. }
    assert (segments t = take a (segments t) ++ take (b - a) (drop a (segments t))
                         ++ drop b (segments t)) as Hs.
    { rewrite <- (take_drop a (segments t)) at 1. f_equal.
      rewrite <- (take_drop (b - a) (drop a (segments t))) at 1. f_equal.
      rewrite drop_drop. f_equal. lia. }
    (* the lines of the text after the fix *)
    set (t0 := flat (take a (segments t)) ++ flat (drop b (segments t))) in *.
    assert (∃ j, (0 ≤ j ≤ 1)%Z
                 ∧ (Z.to_nat (c - thr - 1 + j) < length (lines t))%nat
                 ∧ lines t0 = take a (lines t) ++ drop (Z.to_nat (c - thr - 1 + j)) (lines t)
                 ∧ (j = 1%Z → lines t !! b = Some [])) as (j & Hj & Hd & HL' & Hempty).
    { destruct (lines_after_cut _ _ _ _ Hs HC) as [HL | (_ & C' & HC' & Hne' & HL)].
      - exists 0%Z. split; [lia|]. rewrite Z.add_0_r. fold b.
        split; [rewrite lines_length; lia|]. split; [|done].
        fold t0 in HL. rewrite HL. unfold lines. by rewrite fmap_take, fmap_drop.
      - exists 1%Z. split; [lia|].
        replace (Z.to_nat (c - thr - 1 + 1)) with (S b) by lia.
        assert (drop (S b) (segments t) = C') as HdS.
        { replace (S b) with (b + 1)%nat by lia.
          by rewrite <- drop_drop, HC'. }
        split; [|split].
        + rewrite lines_length. apply (f_equal length) in HdS.
          rewrite length_drop in HdS. destruct C'; [done|]. simpl in HdS. lia.
        + fold t0 in HL. rewrite HL. unfold lines.
          by rewrite fmap_take, <- fmap_drop, HdS.
        + intros _. unfold lines. rewrite list_lookup_fmap.
          rewrite <- (Nat.add_0_r b), <- lookup_drop, HC'. done. }
    assert (j ≤ thr)%Z as Hjthr.
    { destruct (decide (j ≤ thr)%Z) as [|Hgt]; [done|exfalso].
      assert (j = 1%Z) as -> by lia. assert (thr = 0%Z) as Hthr0 by lia.
      specialize (Hempty eq_refl). rewrite Hthr0 in *.
      replace (c - 0)%Z with c in Hle by lia.
      assert (allLines (lines t) !! Z.to_nat (c - 1) = Some []) as Hline.
      { rewrite allLines_lookup by (unfold totalLines in Hle; lia).
        unfold b in Hempty. rewrite Hthr0 in Hempty.
        by replace (c - 0 - 1)%Z with (c - 1)%Z in Hempty by lia. }
      destruct Hpair as [Hin0 _]. unfold totalLines in Hin0.
      apply walked_pair in Hin0 as (_ & [Hcm | ->] & _ & _);
        [|unfold totalLines in Hle; lia].
      apply elem_of_markers in Hcm as (x & Hx & _ & Hor).
      rewrite Hline in Hx. injection Hx as <-.
      destruct Hor as [Htr | Hctl]; [done|].
      destruct (first_excluded_line_opens templates c Hctl) as (node & q & Hn' & Hq & Hst & Hlt).
      - intros Hprev. apply (Hgap (c - 1)%Z); [lia|].
        apply elem_of_markers.
        destruct (lookup_lt_is_Some_2 (allLines (lines t)) (Z.to_nat (c - 1 - 1)))
          as [y Hy]; [unfold totalLines in Hle; lia|].
        exists y. split; [done|]. split; [lia|by right].
      - specialize (Hopen node q Hn' Hq Hlt). rewrite Hst in Hopen.
        unfold non_blank in Hopen. rewrite Hline in Hopen.
        rewrite bool_decide_eq_false_2 in Hopen by apply not_elem_of_empty.
        simpl in Hopen. done. }
    refine (rescan_after_cut limits t t0 tl tl' p c j Hval Hpair Hle Hj Hjthr Hd HL' _ c').
    fold thr.
    replace (c - thr - 1 + j - p)%Z
      with (Z.of_nat (length (lines t)) - Z.of_nat (length (lines t0)))%Z; [done|].
    rewrite HL', length_app, length_take, length_drop. rewrite lines_length in *. lia.
  - apply Z.leb_gt in Hle. injection Hfix as <-. rewrite Hstart in *.
    rewrite removeRange_to_end in *.
    apply (rescan_after_cut_to_end limits t _ tl' p Hval Hp).
    + rewrite lines_length. lia.
    + rewrite (lines_before_cut t _ (drop (Z.to_nat p) (segments t))).
      * unfold lines. by rewrite fmap_take.
      * by rewrite take_drop.
      * intros Hd%(f_equal length). rewrite length_drop in Hd. simpl in Hd. lia.
Qed.

Lemma fixed_run_is_not_reported_again_witness :
  ∃ r, lint [{| opt_max := 1; opt_maxEOF := None; opt_maxBOF := None |}]
            (js "a\n\n\n\n\nb\n") [] = [r]
       ∧ Forall (fun r' => report_previous r' ≠ report_previous r)
                (lint [{| opt_max := 1; opt_maxEOF := None; opt_maxBOF := None |}]
                      (removeRange (js "a\n\n\n\n\nb\n") (2, 5)%Z) []).
Proof.
  eexists. split; [vm_compute; reflexivity|].
  apply Forall_forall. intros r' Hr'.
  eapply (proj1 fixed_run_is_not_reported_again
                [JObject [("max", JInteger 1)]]
                [{| opt_max := 1; opt_maxEOF := None; opt_maxBOF := None |}]
                (js "a\n\n\n\n\nb\n") [] [] _ (2, 5)%Z).
  - reflexivity.
  - intros node q Hnode. by apply elem_of_nil in Hnode.
  - vm_compute. left.
  - reflexivity.
  - intros l _. simpl. split; intros H; by apply not_elem_of_empty in H.
  - exact Hr'.
Defined.

End BlankLineFix.

(** ** The tab rule *)
Module TabRule.
Import SourceCode NoTabs TabRunSpec TabFacts.

Lemma enough_fuel_Forall ls fuel :
  (enough_fuel ls ≤ fuel)%nat → Forall (fun l => (length l < fuel)%nat) ls.
Proof.
  unfold enough_fuel. intros Hf. apply Forall_forall. intros l Hl.
  assert (length l ≤ max_list (length <$> ls))%nat; [|lia].
  apply max_list_elem_of_le, list_elem_of_fmap. by exists l.
Qed.

(** One pass over a text: the outcome does not depend on the fuel once
    it exceeds the length of every line. *)
Lemma Program_reports options t :
  ∃ reports,
    (∀ fuel, (enough_fuel (lines t) ≤ fuel)%nat → Program fuel options t = Some reports)
    ∧ NoDup reports
    ∧ ∀ r, r ∈ reports ↔
           ∃ i s e, reported_run (allowIndentationTabs options) (lines t) i s e
                    ∧ r = report_at i (s, e).
Proof.
  destruct (forEach_line_reports (allowIndentationTabs options) (lines t) O)
    as (reports & Hrun & Hnd & Hin).
  exists reports. split; [|split; [done|]].
  - intros fuel Hf. unfold Program.
    by rewrite (Hrun fuel [] (enough_fuel_Forall _ _ Hf)).
  - intros r. rewrite Hin. by setoid_rewrite Nat.add_0_l.
Qed.

Lemma not_suppressed_iff allow l s e :
  is_tab_run l s e →
  suppressed allow l s = false ↔ (allow = true → ¬ within_indentation l s).
Proof.
  intros Hrun. apply tab_run_starts_with_tab, lookup_lt_Some in Hrun.
  rewrite <- not_true_iff_false, suppressed_true_iff by lia.
  split; [tauto|]. intros H [Ha Hw]. by apply H.
Qed.

Lemma option_value_allow options enabled :
  option_value options enabled → allowIndentationTabs options = enabled.
Proof. by intros [[-> ->] | [rest ->]]. Qed.

(** C3, as the claim states it, fails: without [allowIndentationTabs],
    which is the default, the runs within leading indentation are
    reported too.  The text ["\tx"] has no maximal run of tabs outside
    leading indentation, yet the pass gives one report. *)
Lemma indentation_tab_is_reported_by_default :
  Program 3 [] (js "\tx") = Some [report_at 0 (0, 1)%nat]
  ∧ ∀ i l s e, lines (js "\tx") !! i = Some l → is_tab_run l s e →
               within_indentation l s.
Proof.
  split; [by vm_compute|].
  intros [|i] l s e Hl Hse; [|done]. injection Hl as <-.
  apply tab_run_starts_with_tab in Hse.
  destruct s as [|[|s]]; [|done|done].
  intros j c Hj. lia.
Qed.

(** C3, amended. Let [enabled] be the value the user gave to
    [allowIndentationTabs], [false] when no option object is given.  A
    pass over any text ends and reports, without repetition, exactly the
    maximal runs of tabs that are not skipped, one report per run and
    none per character: the report of a run spans from its first column
    to just after its last column on its line.  When [enabled] is false
    no run is skipped, wherever it lies; when it is true the skipped
    runs are exactly those lying within leading white space.  Hence,
    whenever [runs] lists once each the maximal runs that are not
    skipped ([n] of them: all maximal runs without the option, the
    maximal runs outside leading indentation with it), there are exactly
    [n] reports. *)
Theorem one_report_per_unskipped_maximal_tab_run options enabled t :
  option_value options enabled →
  ∃ reports,
    (∀ fuel, (enough_fuel (lines t) ≤ fuel)%nat → Program fuel options t = Some reports)
    ∧ NoDup reports
    ∧ (∀ r, r ∈ reports ↔
            ∃ i l s e, lines t !! i = Some l ∧ is_tab_run l s e
                       ∧ (enabled = true → ¬ within_indentation l s)
                       ∧ r = report_at i (s, e))
    ∧ (∀ (runs : list (nat * nat * nat)) n,
          NoDup runs →
          (∀ i s e, (i, s, e) ∈ runs ↔
                    ∃ l, lines t !! i = Some l ∧ is_tab_run l s e
                         ∧ (enabled = true → ¬ within_indentation l s)) →
          length runs = n → length reports = n).
Proof.
  intros Hopt%option_value_allow.
  destruct (Program_reports options t) as (reports & Hrun & Hnd & Hin).
  rewrite Hopt in Hin.
  assert (∀ r, r ∈ reports ↔
               ∃ i l s e, lines t !! i = Some l ∧ is_tab_run l s e
                          ∧ (enabled = true → ¬ within_indentation l s)
                          ∧ r = report_at i (s, e)) as Hin2.
  { intros r. rewrite Hin. split.
    - intros (i & s & e & (l & Hl & Hse & Hsup) & ->). exists i, l, s, e.
      split; [done|]. split; [done|]. split; [|done].
      by apply (not_suppressed_iff _ _ _ _ Hse).
    - intros (i & l & s & e & Hl & Hse & Hsup & ->). exists i, s, e.
      split; [|done]. exists l. split; [done|]. split; [done|].
      by apply (not_suppressed_iff _ _ _ _ Hse). }
  exists reports. split; [done|]. split; [done|]. split; [done|].
  intros runs n Hndr Hruns <-.
  set (f := fun x : nat * nat * nat => report_at x.1.1 (x.1.2, x.2)).
  rewrite <- (length_fmap f runs). apply Permutation_length, NoDup_Permutation; [done| |].
  - apply NoDup_fmap_2; [|done]. intros [[i s] e] [[i' s'] e'] Heq.
    unfold f in Heq. simpl in Heq.
    apply report_at_inj in Heq as (-> & -> & ->). done.
  - intros r. rewrite Hin2, list_elem_of_fmap. split.
    + intros (i & l & s & e & Hl & Hse & Hsup & ->). exists (i, s, e).
      split; [done|]. apply Hruns. by exists l.
    + intros ([[i s] e] & -> & (l & Hl & Hse & Hsup)%Hruns). by exists i, l, s, e.
Qed.

Lemma one_report_per_unskipped_maximal_tab_run_witness :
  ∃ reports,
    Program 5 [{| opt_allowIndentationTabs := true |}] (js "\tx\ty") = Some reports
    ∧ NoDup reports
    ∧ length reports = 1%nat.
Proof.
  destruct (one_report_per_unskipped_maximal_tab_run
              [{| opt_allowIndentationTabs := true |}] true (js "\tx\ty"))
    as (reports & Hrun & Hnd & Hin & Hcount).
  - right. by exists [].
  - exists reports. split; [apply Hrun; vm_compute; lia|]. split; [exact Hnd|].
    apply (Hcount [(0, 2, 3)%nat]); [repeat constructor; by intros ?%elem_of_nil| |done].
    intros i s e. split.
    + intros [= -> -> ->]%list_elem_of_singleton. exists (js "\tx\ty").
      split; [done|]. split.
      * split; [lia|]. split; [|split; [right|]; by vm_compute].
        intros j Hj. by replace j with 2%nat by lia.
      * intros _ Hw. by specialize (Hw 1%nat 120%N ltac:(lia) eq_refl).
    + intros (l & Hl & Hse & Hout). destruct i as [|i]; [|done]. injection Hl as <-.
      apply list_elem_of_singleton.
      pose proof (tab_run_starts_with_tab _ _ _ Hse) as Hs.
      destruct s as [|[|[|[|s]]]]; try done.
      * exfalso. apply (Hout eq_refl). intros j c Hj. lia.
      * repeat f_equal. destruct Hse as (Hlt & Ht & _ & Hstop).
        destruct e as [|[|[|[|e]]]]; try lia.
        specialize (Ht 3%nat ltac:(lia)). done.
Defined.

(** C4. When [allowIndentationTabs] is [true] in the option object, the
    report of a maximal run is missing from the reports of the pass if
    and only if every character before the run on its line is white
    space; in particular a run that starts at column 0 is never
    reported then.  Whatever the options are, a maximal run with a
    non-white-space character before it is reported.  The text
    ["x\tfoo\n"] with the option gives exactly one report, for columns
    1 to 2 of line 1. *)
Theorem indentation_tabs_skipped_iff_only_white_space_before :
  (∀ rest t, ∃ reports,
      (∀ fuel, (enough_fuel (lines t) ≤ fuel)%nat →
               Program fuel ({| opt_allowIndentationTabs := true |} :: rest) t
               = Some reports)
      ∧ (∀ i l s e, lines t !! i = Some l → is_tab_run l s e →
                    (report_at i (s, e) ∉ reports ↔ within_indentation l s))
      ∧ (∀ i l e, lines t !! i = Some l → is_tab_run l O e →
                  report_at i (O, e) ∉ reports))
  ∧ (∀ options t, ∃ reports,
        (∀ fuel, (enough_fuel (lines t) ≤ fuel)%nat →
                 Program fuel options t = Some reports)
        ∧ ∀ i l s e, lines t !! i = Some l → is_tab_run l s e →
                     ¬ within_indentation l s → report_at i (s, e) ∈ reports)
  ∧ (∀ fuel, (6 ≤ fuel)%nat →
             Program fuel [{| opt_allowIndentationTabs := true |}] (js "x\tfoo\n")
             = Some [report_at 0 (1, 2)%nat]).
Proof.
  split; [|split].
  - intros rest t.
    destruct (Program_reports ({| opt_allowIndentationTabs := true |} :: rest) t)
      as (reports & Hrun & _ & Hin).
    simpl in Hin.
    assert (∀ i l s e, lines t !! i = Some l → is_tab_run l s e →
                       (report_at i (s, e) ∉ reports ↔ within_indentation l s)) as Hiff.
    { intros i l s e Hl Hse.
      pose proof (tab_run_starts_with_tab _ _ _ Hse) as Hs. apply lookup_lt_Some in Hs.
      pose proof (suppressed_true_iff true l s ltac:(lia)) as Hsup.
      rewrite Hin. split.
      - intros Hnot. apply Hsup. destruct (suppressed true l s) eqn:E; [done|exfalso].
        apply Hnot. exists i, s, e. split; [|done]. by exists l.
      - intros Hw (i' & s' & e' & (l' & Hl' & _ & Hsup') & (-> & -> & ->)%report_at_inj).
        assert (l' = l) as -> by congruence.
        assert (suppressed true l s' = true) by (by apply Hsup). congruence. }
    exists reports. split; [done|]. split; [done|].
    intros i l e Hl Hse. apply (Hiff i l O e Hl Hse). intros j c Hj. lia.
  - intros options t. destruct (Program_reports options t) as (reports & Hrun & _ & Hin).
    exists reports. split; [done|]. intros i l s e Hl Hse Hout. apply Hin.
    exists i, s, e. split; [|done]. exists l. split; [done|]. split; [done|].
    apply (not_suppressed_iff _ _ _ _ Hse). by intros _.
  - intros fuel Hf.
    destruct (Program_reports [{| opt_allowIndentationTabs := true |}] (js "x\tfoo\n"))
      as (reports & Hrun & _).
    rewrite (Hrun fuel) by (vm_compute; lia).
    rewrite <- (Hrun 6%nat) by (vm_compute; lia). by vm_compute.
Qed.

Lemma indentation_tabs_skipped_iff_only_white_space_before_witness :
  ∃ reports,
    Program 8 [{| opt_allowIndentationTabs := true |}] (js "\tx\tfoo") = Some reports
    ∧ (report_at 0 (0, 1)%nat ∉ reports)
    ∧ (report_at 0 (2, 3)%nat ∈ reports).
Proof.
  destruct (proj1 indentation_tabs_skipped_iff_only_white_space_before [] (js "\tx\tfoo"))
    as (reports & Hrun & Hiff & Hcol0).
  exists reports. split; [apply Hrun; vm_compute; lia|]. split.
  - apply (Hcol0 0%nat (js "\tx\tfoo") 1%nat); [done|].
    split; [lia|]. split; [|split; [by left|by vm_compute]].
    intros j Hj. by replace j with 0%nat by lia.
  - destruct (decide (report_at 0 (2, 3)%nat ∈ reports)) as [|Hnot]; [done|exfalso].
    apply (Hiff 0%nat (js "\tx\tfoo") 2%nat 3%nat) in Hnot.
    + by specialize (Hnot 1%nat 120%N ltac:(lia) eq_refl).
    + done.
    + split; [lia|]. split; [|split; [right|]; by vm_compute].
      intros j Hj. by replace j with 2%nat by lia.
Defined.

(** C9. Every match of [tabRegex] is at least one character long and
    moves [lastIndex] strictly forward, within the line.  On every line
    the match loop ends: it visits each maximal run of tabs exactly once
    and no other match, there are at most as many runs as characters,
    and the loop condition is evaluated once per run and once more, after
    which [lastIndex] is 0 again. *)
Theorem tab_match_loop_terminates :
  (∀ l lastIndex m lastIndex',
      exec l lastIndex = (Some m, lastIndex') →
      (1 ≤ matched_length m)%nat
      ∧ (lastIndex < lastIndex' ≤ length l)%nat
      ∧ lastIndex' = (index m + matched_length m)%nat)
  ∧ (∀ allow index_ l, ∃ runs,
        NoDup runs
        ∧ (∀ s e, (s, e) ∈ runs ↔ is_tab_run l s e)
        ∧ (length runs ≤ length l)%nat
        ∧ ∀ fuel acc,
            ((length runs < fuel)%nat →
             while_exec fuel allow index_ l (O, acc)
             = Some (O, acc ++ reported allow index_ l runs))
            ∧ ((fuel ≤ length runs)%nat →
               while_exec fuel allow index_ l (O, acc) = None)).
Proof.
  split.
  - intros l p m p' (Hpi & _ & Hpos & _ & _ & -> & Hlen)%exec_Some. lia.
  - intros allow index_ l.
    destruct (while_exec_visits allow index_ l (length l) O) as (runs & Hb & Hs & Hin & Hfuel);
      [lia|split; [lia|by left]|].
    exists runs. split; [by eapply runs_NoDup|]. split; [|split; [|done]].
    + intros s e. rewrite Hin. split; [by intros [? _]|]. intros ?. split; [done|lia].
    + pose proof (runs_length_bound _ O _ (Nat.le_0_l _) Hb Hs). lia.
Qed.

Lemma tab_match_loop_terminates_witness :
  (1 ≤ 2)%nat ∧ (0 < 3 ≤ 5)%nat ∧ 3%nat = (1 + 2)%nat.
Proof.
  exact (proj1 tab_match_loop_terminates (js "a\t\tbc") 0%nat
               {| index := 1; matched_length := 2 |} 3%nat eq_refl).
Defined.

End TabRule.

(** ** Further facts on segments and on the order of the reports *)
Module MoreFacts.
Import SourceCode NoMultipleEmptyLines BlankRunSpec SegmentSpec ReportOrder.
Import BlankLineFacts MarkerFacts SegmentFacts FixFacts RescanFacts.

Lemma StronglySorted_filter {A} (R : relation A) (P : A → Prop)
      `{!∀ x, Decision (P x)} (l : list A) :
  StronglySorted R l → StronglySorted R (filter P l).
Proof.
  induction 1 as [|x l Hs IH Hall]; [constructor|].
  rewrite filter_cons. case_decide; [|done].
  constructor; [done|]. apply Forall_forall. intros y [_ Hy]%list_elem_of_filter.
  rewrite Forall_forall in Hall. by apply Hall.
Qed.

Lemma StronglySorted_impl_elem {A} (R R' : relation A) (l : list A) :
  (∀ x y, x ∈ l → y ∈ l → R x y → R' x y) →
  StronglySorted R l → StronglySorted R' l.
Proof.
  intros Himpl Hs. induction Hs as [|x l Hs IH Hall]; [constructor|].
  constructor.
  - apply IH. intros y z Hy Hz. apply Himpl; by right.
  - rewrite Forall_forall in *. intros y Hy. apply Himpl; [by left|by right|by apply Hall].
Qed.

(** The pairs of a strictly increasing sequence follow one another. *)
Lemma pairs_chain prev ms :
  StronglySorted Z.lt (prev :: ms) →
  StronglySorted (fun a b : Z * Z => (a.2 ≤ b.1)%Z) (pairs prev ms).
Proof.
  revert prev. induction ms as [|m ms IH]; intros prev Hs; simpl; [constructor|].
  pose proof Hs as [_ Hs']%StronglySorted_cons.
  constructor; [by apply IH|].
  apply Forall_forall. intros [p c] Hin. simpl.
  destruct (pairs_neighbours _ _ _ _ Hs' Hin) as (_ & Hp & _).
  apply elem_of_cons in Hp as [->|Hp]; [lia|].
  apply StronglySorted_cons in Hs' as [Hall _].
  rewrite Forall_forall in Hall. specialize (Hall _ Hp). lia.
Qed.

(** The reports of a pass follow one another in the text. *)
Lemma Program_exit_chain limits t tl :
  StronglySorted (fun r1 r2 => (report_current r1 ≤ report_previous r2)%Z)
                 (Program_exit limits t tl).
Proof.
  rewrite Program_exit_pairs.
  eapply (StronglySorted_fmap _ (fun a b : Z * Z => (a.2 ≤ b.1)%Z)).
  - intros [p c] [p' c'] Hle. simpl in *.
    destruct (make_report_fields limits t (Z.of_nat (length (allLines (lines t)))) p c)
      as (_ & _ & _ & _ & -> & _).
    destruct (make_report_fields limits t (Z.of_nat (length (allLines (lines t)))) p' c')
      as (_ & _ & _ & -> & _ & _).
    done.
  - apply StronglySorted_filter, pairs_chain, walked_sequence_sorted.
Qed.

Lemma flat_take_mono (segs : list (text * text)) a b :
  (a ≤ b)%nat → (length (flat (take a segs)) ≤ length (flat (take b segs)))%nat.
Proof.
  intros Hab. rewrite <- (take_drop a (take b segs)).
  rewrite take_take, flat_app, length_app. replace (a `min` b)%nat with a by lia. lia.
Qed.

Lemma flat_take_lt t a b :
  (a < b)%nat → (b < length (segments t))%nat →
  (length (flat (take a (segments t))) < length (flat (take b (segments t))))%nat.
Proof.
  intros Hab Hb. pose proof (flat_take_S_lt t a ltac:(lia)).
  pose proof (flat_take_mono (segments t) (S a) b ltac:(lia)). lia.
Qed.

(** The terminators of the segments are made of line terminators, the
    lines hold none. *)
Lemma segments_chars t sg :
  sg ∈ segments t →
  Forall (fun c => isLineTerminator c = false) sg.1
  ∧ Forall (fun c => isLineTerminator c = true) sg.2.
Proof.
  revert sg. pattern t, (segments t). apply segments_ind; clear t.
  - intros sg ->%list_elem_of_singleton. by split.
  - intros t IH sg [->|Hsg]%elem_of_cons; [|by apply IH].
    split; [constructor|]. by repeat constructor.
  - intros t _ IH sg [->|Hsg]%elem_of_cons; [|by apply IH].
    split; [constructor|]. by repeat constructor.
  - intros c t _ Hc IH sg [->|Hsg]%elem_of_cons; [|by apply IH].
    split; [constructor|]. by repeat constructor.
  - intros c t l tm rest Hc Hs IH sg [->|Hsg]%elem_of_cons.
    + destruct (IH (l, tm)) as [Hl Htm]; [by left|]. split; [by constructor|done].
    + apply IH. by right.
Qed.

Lemma terminator_is_white_space c : isLineTerminator c = true → isWhiteSpace c = true.
Proof.
  unfold isLineTerminator. intros H.
  repeat (apply orb_true_iff in H as [H|H]); apply N.eqb_eq in H as ->; done.
Qed.

Lemma trim_truthy_false l :
  trim_truthy l = false ↔ Forall (fun c => isWhiteSpace c = true) l.
Proof.
  unfold trim_truthy. induction l as [|c l IH]; simpl; [done|].
  rewrite orb_false_iff, IH, negb_false_iff, Forall_cons. done.
Qed.

End MoreFacts.

(** ** More on the blank-line rule *)
Module BlankLineMore.
Import SourceCode NoMultipleEmptyLines BlankRunSpec SegmentSpec ReportOrder.
Import BlankLineFacts MarkerFacts SegmentFacts FixFacts RescanFacts MoreFacts.

(** The segment of the last line of a text whose last line is kept by
    [allLines] has a non-empty line. *)
Lemma last_kept_line_nonempty t sg :
  totalLines t = Z.of_nat (length (segments t)) →
  last (segments t) = Some sg → sg.1 ≠ [].
Proof.
  unfold totalLines. rewrite allLines_length, lines_length.
  pose proof (segments_nonempty t) as Hne. intros Hn Hlast Hsg.
  case_decide as Hd.
  - destruct (segments t); [done|]. simpl in Hn. lia.
  - apply Hd. unfold lines. by rewrite fmap_last, Hlast, <- Hsg.
Qed.

(** What the fix of a reported pair removes: the segments [B] that
    follow the first [p] segments. *)
Lemma fix_anatomy limits t tl p c :
  limits_valid limits → reported_pair limits t tl p c →
  ∃ B rest,
    t = flat (take (Z.to_nat p) (segments t)) ++ flat B ++ rest
    ∧ run_fix t (totalLines t) p c (threshold limits (classify (totalLines t) p c))
      = Some (Z.of_nat (length (flat (take (Z.to_nat p) (segments t)))),
              Z.of_nat (length (flat (take (Z.to_nat p) (segments t))) + length (flat B)))
    ∧ flat B ≠ []
    ∧ Forall (fun c => isWhiteSpace c = true) (flat B).
Proof.
  intros Hv Hpair.
  destruct (reported_pair_facts _ _ _ _ _ Hv Hpair) as (Hp & Hc & Hthr & Hgap).
  set (thr := threshold limits (classify (totalLines t) p c)) in *.
  pose proof (totalLines_bounds t) as [Hn HN].
  set (a := Z.to_nat p).
  assert (∀ B, (∀ k sg, B !! k = Some sg →
                        segments t !! (a + k)%nat = Some sg
                        ∧ (Z.of_nat (a + k) < c - 1 ∨ sg.1 = [])%Z) →
               Forall (fun c => isWhiteSpace c = true) (flat B)) as Hws.
  { intros B HB. unfold flat. apply Forall_concat, Forall_fmap, Forall_lookup.
    intros k sg Hk. destruct (HB k sg Hk) as [Hsg Hblank]. simpl.
    apply Forall_app. split.
    - apply trim_truthy_false. destruct Hblank as [Hlt | ->]; [|done].
      eapply (inside_run_blank limits t tl p c); [done|done| |exact Hsg]. lia.
    - destruct (segments_chars t sg) as [_ Htm].
      { apply list_elem_of_lookup. by exists (a + k)%nat. }
      eapply Forall_impl; [exact Htm|]. apply terminator_is_white_space. }
  rewrite run_fix_value by done. fold thr.
  assert (offset_of_line t (p + 1)
          = Z.of_nat (length (flat (take a (segments t))))) as ->.
  { unfold offset_of_line. by replace (Z.to_nat (p + 1 - 1)) with a by lia. }
  destruct (lookup_lt_is_Some_2 (segments t) a) as [sga Hsga]; [lia|].
  destruct (c - thr <=? totalLines t)%Z eqn:Hle.
  - apply Z.leb_le in Hle. set (b := Z.to_nat (c - thr - 1)).
    exists (take (b - a) (drop a (segments t))), (flat (drop b (segments t))).
    assert (take b (segments t)
            = take a (segments t) ++ take (b - a) (drop a (segments t))) as Htb.
    { rewrite <- (take_drop a (take b (segments t))), take_take, skipn_firstn_comm.
      by replace (a `min` b)%nat with a by lia. }
    split; [|split; [|split]].
    + rewrite app_assoc, <- flat_app, <- Htb. apply text_cut.
    + unfold offset_of_line. fold b. by rewrite Htb, flat_app, length_app.
    + intros Hnil. pose proof (flat_take_lt t a b ltac:(lia) ltac:(lia)) as Hlt.
      rewrite Htb, flat_app, length_app, Hnil in Hlt. simpl in Hlt. lia.
    + apply Hws. intros k sg [Hk Hkb]%lookup_take_Some. rewrite lookup_drop in Hk.
      split; [done|]. left. lia.
  - apply Z.leb_gt in Hle. exists (drop a (segments t)), [].
    assert (t = flat (take a (segments t)) ++ flat (drop a (segments t))) as Ht
        by apply text_cut.
    split; [|split; [|split]].
    + by rewrite app_nil_r.
    + do 2 f_equal. rewrite <- length_app, <- Ht. done.
    + rewrite (drop_S _ _ _ Hsga), flat_cons.
      destruct (decide (S a < length (segments t))%nat) as [Hlt|Hge].
      * destruct (segments_suffix t (take (S a) (segments t)) (drop (S a) (segments t)))
          as (_ & _ & HA).
        { by rewrite take_drop. }
        { intros Hd%(f_equal length). rewrite length_drop in Hd. simpl in Hd. lia. }
        rewrite (take_S_r _ _ _ Hsga) in HA.
        apply Forall_app in HA as [_ [[_ Htm%is_terminator_nonempty] _]%Forall_cons].
        destruct sga.1, sga.2; done.
      * assert (sga.1 ≠ []) as Hne; [|by destruct sga.1].
        apply (last_kept_line_nonempty t); [lia|].
        rewrite last_lookup, <- Hsga. f_equal. lia.
    + apply Hws. intros k sg Hk. rewrite lookup_drop in Hk. split; [done|].
      destruct (decide (Z.of_nat (a + k) < c - 1)%Z) as [|Hge]; [by left|right].
      apply lookup_lt_Some in Hk as Hlt.
      destruct (segments_last t) as [l' Hlast].
      rewrite last_lookup in Hlast.
      replace (pred (length (segments t))) with (a + k)%nat in Hlast by lia.
      destruct (decide (sg.1 = [])) as [|Hne]; [done|exfalso].
      assert (totalLines t ≠ Z.of_nat (length (segments t))) as Hneq by lia.
      apply Hneq. unfold totalLines. rewrite allLines_length, lines_length.
      rewrite decide_False; [done|]. unfold lines. rewrite fmap_last, last_lookup.
      replace (pred (length (segments t))) with (a + k)%nat by lia.
      rewrite Hk. simpl. congruence.
Qed.

Lemma lint_report options t templates r :
  r ∈ lint options t templates →
  ∃ p c, reported_pair (create options) t (foldl TemplateLiteral ∅ templates) p c
         ∧ r = make_report (create options) t (totalLines t) p c.
Proof.
  unfold lint. intros (p & c & Hin & Hex & ->)%elem_of_Program_exit. by exists p, c.
Qed.

(** X1. With validated options the fix of every report removes a range
    that is not empty and lies within the text, so that applying it
    gives a text shorter by the length of the range. *)
Theorem fix_range_is_nonempty_and_within_text config options t templates r :
  validate config = Some options →
  r ∈ lint options t templates →
  ∃ rangeStart rangeEnd,
    fix_ r = Some (rangeStart, rangeEnd)
    ∧ (0 ≤ rangeStart < rangeEnd)%Z
    ∧ (rangeEnd ≤ Z.of_nat (length t))%Z
    ∧ Z.of_nat (length (removeRange t (rangeStart, rangeEnd)))
      = (Z.of_nat (length t) - (rangeEnd - rangeStart))%Z.
Proof.
  intros Hval%create_valid (p & c & Hpair & ->)%lint_report.
  destruct (fix_anatomy _ _ _ _ _ Hval Hpair) as (B & rest & Ht & Hfix & Hne & _).
  destruct (make_report_fields (create options) t (totalLines t) p c)
    as (_ & _ & _ & _ & _ & ->).
  eexists _, _. split; [exact Hfix|].
  apply (f_equal length) in Ht. rewrite !length_app in Ht.
  assert (length (flat B) ≠ 0)%nat by (by destruct (flat B)).
  split; [lia|]. split; [lia|].
  unfold removeRange. simpl. rewrite length_app, length_take, length_drop. lia.
Qed.

Lemma fix_range_is_nonempty_and_within_text_witness :
  ∃ rangeStart rangeEnd,
    (0 ≤ rangeStart < rangeEnd)%Z
    ∧ (rangeEnd ≤ Z.of_nat (length (js "a\n \n\t\nb")))%Z.
Proof.
  destruct (fix_range_is_nonempty_and_within_text
              [JObject [("max", JInteger 0)]]
              [{| opt_max := 0; opt_maxEOF := None; opt_maxBOF := None |}]
              (js "a\n \n\t\nb") []
              (make_report {| max := 0; maxEOF := 0; maxBOF := 0 |}
                           (js "a\n \n\t\nb") 4 1 4) eq_refl)
    as (rs & re & _ & H1 & H2 & _).
  - vm_compute. left.
  - by exists rs, re.
Defined.

(** X2. With validated options the fix of a report deletes white space
    only: every character of the text inside the removed range is a
    white-space or line-terminator character. *)
Theorem fix_removes_white_space_only config options t templates r rangeStart rangeEnd :
  validate config = Some options →
  r ∈ lint options t templates →
  fix_ r = Some (rangeStart, rangeEnd) →
  ∀ i c, (rangeStart ≤ Z.of_nat i < rangeEnd)%Z → t !! i = Some c →
         isWhiteSpace c = true.
Proof.
  intros Hval%create_valid (p & c & Hpair & ->)%lint_report Hfix i ch Hi Hch.
  destruct (fix_anatomy _ _ _ _ _ Hval Hpair) as (B & rest & Ht & Hfix' & _ & Hws).
  destruct (make_report_fields (create options) t (totalLines t) p c)
    as (_ & _ & _ & _ & _ & Hf).
  rewrite Hf, Hfix' in Hfix. injection Hfix as <- <-.
  rewrite Ht in Hch. rewrite lookup_app_r in Hch by lia.
  rewrite lookup_app_l in Hch by lia.
  rewrite Forall_forall in Hws. apply Hws.
  apply list_elem_of_lookup. eauto.
Qed.

Lemma fix_removes_white_space_only_witness :
  isWhiteSpace 32 = true.
Proof.
  refine (fix_removes_white_space_only
            [JObject [("max", JInteger 0)]]
            [{| opt_max := 0; opt_maxEOF := None; opt_maxBOF := None |}]
            (js "a\n \n\t\nb") []
            (make_report {| max := 0; maxEOF := 0; maxBOF := 0 |}
                         (js "a\n \n\t\nb") 4 1 4)
            2 6 eq_refl _ eq_refl 2%nat 32%N _ eq_refl).
  - vm_compute. left.
  - lia.
Defined.

Lemma reported_pair_bounds limits t tl p c :
  reported_pair limits t tl p c → (0 ≤ p < c)%Z ∧ (c ≤ totalLines t + 1)%Z.
Proof.
  intros [Hin _]. pose proof Hin as Hin'.
  unfold totalLines in Hin. apply walked_pair in Hin as (Hpc & _ & Hc & _).
  eapply pairs_neighbours in Hin' as (_ & Hp & _);
    [|unfold totalLines; apply walked_sequence_sorted].
  split; [|done]. split; [|done]. pose proof (totalLines_bounds t).
  apply elem_of_cons in Hp as [->|[Hp%markers_from_bounds|Hp%list_elem_of_singleton]%elem_of_app];
    lia.
Qed.

(** X3. With validated options the reports of a pass come in text order
    and do not meet: each report's span ends on a line before the line
    where every later report starts, and the range its fix removes ends
    before the range of every later fix starts, so all the fixes of one
    pass can be applied together. *)
Theorem reports_in_text_order_with_disjoint_fixes config options t templates :
  validate config = Some options →
  StronglySorted blank_before (lint options t templates).
Proof.
  intros Hval%create_valid.
  eapply StronglySorted_impl_elem; [|apply Program_exit_chain].
  intros x y (p1 & c1 & Hpair1 & ->)%lint_report (p2 & c2 & Hpair2 & ->)%lint_report.
  set (limits := create options) in *.
  destruct (make_report_fields limits t (totalLines t) p1 c1)
    as (Hloc1 & _ & _ & _ & -> & Hf1).
  destruct (make_report_fields limits t (totalLines t) p2 c2)
    as (Hloc2 & _ & _ & -> & _ & Hf2).
  intros Hle.
  destruct (reported_pair_facts _ _ _ _ _ Hval Hpair1) as (Hp1 & Hc1 & Hthr1 & _).
  destruct (reported_pair_facts _ _ _ _ _ Hval Hpair2) as (Hp2 & Hc2 & Hthr2 & _).
  pose proof (totalLines_bounds t) as [Hn HN].
  split; [rewrite Hloc1, Hloc2; simpl; lia|].
  intros range1 range2. rewrite Hf1, Hf2, !run_fix_value by done.
  rewrite (proj2 (Z.leb_le (c1 - _) _)) by lia.
  intros [= <-] [= <-]. simpl. unfold offset_of_line.
  apply inj_lt, flat_take_lt; lia.
Qed.

Lemma reports_in_text_order_with_disjoint_fixes_witness :
  StronglySorted blank_before
    (lint [{| opt_max := 0; opt_maxEOF := None; opt_maxBOF := None |}]
          (js "a\n\nb\n\nc") []).
Proof.
  exact (reports_in_text_order_with_disjoint_fixes
           [JObject [("max", JInteger 0)]]
           [{| opt_max := 0; opt_maxEOF := None; opt_maxBOF := None |}]
           (js "a\n\nb\n\nc") [] eq_refl).
Defined.

Lemma message_of_make_report limits t p c :
  (messageId (make_report limits t (totalLines t) p c) = blankBeginningOfFile → p = 0%Z)
  ∧ (messageId (make_report limits t (totalLines t) p c) = blankEndOfFile →
     c = (totalLines t + 1)%Z).
Proof.
  destruct (make_report_fields limits t (totalLines t) p c) as (_ & -> & _).
  unfold classify. destruct (p =? 0)%Z eqn:Hp.
  - apply Z.eqb_eq in Hp. by split.
  - destruct (c =? totalLines t + 1)%Z eqn:Hc; [|by split].
    apply Z.eqb_eq in Hc. by split.
Qed.

(** X4. In the reports of a pass only the first can be a
    beginning-of-file report and only the last can be an end-of-file
    report; there is at most one of each. *)
Theorem file_edge_reports_are_first_and_last options t templates before r after :
  lint options t templates = before ++ r :: after →
  (messageId r = blankBeginningOfFile → before = [])
  ∧ (messageId r = blankEndOfFile → after = []).
Proof.
  intros Heq.
  pose proof (Program_exit_chain (create options) t (foldl TemplateLiteral ∅ templates))
    as Hs.
  fold (lint options t templates) in Hs. rewrite Heq in Hs.
  apply StronglySorted_app in Hs as (Hbr & _ & [Hra _]%StronglySorted_cons).
  assert (r ∈ lint options t templates) as (p & c & Hpair & ->)%lint_report.
  { rewrite Heq. apply elem_of_app. right. by left. }
  destruct (reported_pair_bounds _ _ _ _ _ Hpair) as [Hpc Hc].
  destruct (message_of_make_report (create options) t p c) as [HB HE].
  destruct (make_report_fields (create options) t (totalLines t) p c)
    as (_ & _ & _ & Hprev & Hcur & _).
  split.
  - intros ->%HB. destruct before as [|x before]; [done|exfalso].
    assert (x ∈ lint options t templates) as (p0 & c0 & Hpair0 & ->)%lint_report.
    { rewrite Heq. by left. }
    specialize (Hbr (make_report (create options) t (totalLines t) p0 c0)
                    (make_report (create options) t (totalLines t) 0 c)
                    ltac:(by left) ltac:(by left)).
    simpl in Hbr. rewrite Hprev in Hbr.
    destruct (make_report_fields (create options) t (totalLines t) p0 c0)
      as (_ & _ & _ & _ & Hcur0 & _).
    rewrite Hcur0 in Hbr.
    destruct (reported_pair_bounds _ _ _ _ _ Hpair0). lia.
  - intros ->%HE. destruct after as [|y after]; [done|exfalso].
    assert (y ∈ lint options t templates) as (p0 & c0 & Hpair0 & ->)%lint_report.
    { rewrite Heq. apply elem_of_app. right. right. by left. }
    apply Forall_cons in Hra as [Hra _]. rewrite Hcur in Hra.
    destruct (make_report_fields (create options) t (totalLines t) p0 c0)
      as (_ & _ & _ & Hprev0 & _ & _).
    rewrite Hprev0 in Hra.
    destruct (reported_pair_bounds _ _ _ _ _ Hpair0). lia.
Qed.

Lemma file_edge_reports_are_first_and_last_witness :
  ∃ r1 r2,
    lint [{| opt_max := 0; opt_maxEOF := None; opt_maxBOF := None |}]
         (js "\n\na\n\n") [] = [r1; r2]
    ∧ (messageId r2 = blankBeginningOfFile → [r1] = []).
Proof.
  eexists _, _. split; [vm_compute; reflexivity|].
  refine (proj1 (file_edge_reports_are_first_and_last
                   [{| opt_max := 0; opt_maxEOF := None; opt_maxBOF := None |}]
                   (js "\n\na\n\n") [] [_] _ [] _)).
  vm_compute. reflexivity.
Defined.

(** X5. Raising thresholds adds no report: every run reported under the
    larger thresholds is reported, with the same message, under the
    smaller ones. *)
Theorem raising_thresholds_adds_no_report limits limits' t tl r' :
  (max limits ≤ max limits')%Z →
  (maxEOF limits ≤ maxEOF limits')%Z →
  (maxBOF limits ≤ maxBOF limits')%Z →
  r' ∈ Program_exit limits' t tl →
  ∃ r, r ∈ Program_exit limits t tl
       ∧ report_previous r = report_previous r'
       ∧ report_current r = report_current r'
       ∧ messageId r = messageId r'.
Proof.
  intros Hmax Heof Hbof (p & c & Hin & Hex & ->)%elem_of_Program_exit.
  exists (make_report limits t (totalLines t) p c).
  destruct (make_report_fields limits t (totalLines t) p c)
    as (_ & -> & _ & -> & -> & _).
  destruct (make_report_fields limits' t (totalLines t) p c)
    as (_ & -> & _ & -> & -> & _).
  split; [|done]. apply elem_of_Program_exit. exists p, c. split; [done|].
  split; [|done]. rewrite exceeds_threshold in *.
  apply Z.ltb_lt in Hex. apply Z.ltb_lt.
  destruct (classify (totalLines t) p c); simpl in *; lia.
Qed.

Lemma raising_thresholds_adds_no_report_witness :
  ∃ r, r ∈ Program_exit {| max := 1; maxEOF := 1; maxBOF := 1 |} (js "a\n\n\n\nb") ∅
       ∧ report_previous r = 1%Z.
Proof.
  destruct (raising_thresholds_adds_no_report
              {| max := 1; maxEOF := 1; maxBOF := 1 |}
              {| max := 2; maxEOF := 2; maxBOF := 2 |}
              (js "a\n\n\n\nb") ∅
              (make_report {| max := 2; maxEOF := 2; maxBOF := 2 |}
                           (js "a\n\n\n\nb") 5 1 5))
    as (r & Hr & Hp & _).
  - simpl. lia.
  - simpl. lia.
  - simpl. lia.
  - vm_compute. left.
  - exists r. split; [done|]. exact Hp.
Defined.

(** X6. The reports depend on the template literals only through the
    set of lines their literal parts cover: two lists of template
    literals that cover the same lines give the same reports.  So the
    order in which the literals are visited does not matter, and a
    literal whose parts each end on the line where they start changes
    nothing. *)
Theorem reports_depend_on_covered_lines_only :
  (∀ options t templates templates',
      (∀ l, covered templates l ↔ covered templates' l) →
      lint options t templates = lint options t templates')
  ∧ (∀ options t templates,
        lint options t (reverse templates) = lint options t templates)
  ∧ (∀ options t node templates,
        Forall (fun q => (line (end_ (ESTree.loc q)) ≤ line (start (ESTree.loc q)))%Z)
               (ESTree.quasis node) →
        lint options t (node :: templates) = lint options t templates).
Proof.
  assert (∀ options t templates templates',
             (∀ l, covered templates l ↔ covered templates' l) →
             lint options t templates = lint options t templates') as Hmain.
  { intros options t templates templates' Hcov. unfold lint. f_equal.
    apply set_eq. intros l. rewrite !elem_of_templateLiteralLines.
    specialize (Hcov l). unfold covered in Hcov.
    split; (intros [?%not_elem_of_empty|H]; [done|right]); by apply Hcov. }
  split; [done|]. split.
  - intros options t templates. apply Hmain. intros l. unfold covered.
    by setoid_rewrite elem_of_reverse.
  - intros options t node templates Hone. apply Hmain. intros l. unfold covered. split.
    + intros (node' & q & [->|Hn]%elem_of_cons & Hq & Hcov).
      * exfalso. rewrite Forall_forall in Hone. specialize (Hone q Hq).
        unfold covers in Hcov. lia.
      * by exists node', q.
    + intros (node' & q & Hn & Hq & Hcov). exists node', q. split; [by right|done].
Qed.

Lemma reports_depend_on_covered_lines_only_witness :
  lint [] (js "a\n\n\n\nb")
       [{| ESTree.quasis :=
             [{| ESTree.loc := {| start := {| line := 1; column := 0 |};
                                  end_ := {| line := 1; column := 1 |} |} |}] |}]
  = lint [] (js "a\n\n\n\nb") [].
Proof.
  apply (proj2 (proj2 reports_depend_on_covered_lines_only)).
  repeat constructor. simpl. lia.
Defined.

Lemma unknown_key_fails fields k v :
  (k, v) ∈ fields → known_key k = false →
  forallb (fun kv : string * json => known_key kv.1) fields = false.
Proof.
  induction fields as [|kv fields IH]; [by intros ?%elem_of_nil|].
  intros [<-|Hin]%elem_of_cons Hk; simpl.
  - by rewrite Hk.
  - rewrite IH by done. apply andb_false_r.
Qed.

(** X7. The schema rejects an option array of more than one item, an
    item that is not an object, an object with a key other than [max],
    [maxEOF] and [maxBOF], and an object in which one of these three
    properties is not a non-negative integer. *)
Theorem schema_rejects_malformed_options :
  (∀ v w rest, validate (v :: w :: rest) = None)
  ∧ (∀ v, (∀ fields, v ≠ JObject fields) → validate [v] = None)
  ∧ (∀ fields k v,
        (k, v) ∈ fields → k ≠ "max" → k ≠ "maxEOF" → k ≠ "maxBOF" →
        validate [JObject fields] = None)
  ∧ (∀ fields key v,
        key = "max" ∨ key = "maxEOF" ∨ key = "maxBOF" →
        property fields key = Some v →
        (∀ z, v = JInteger z → (z < 0)%Z) →
        validate [JObject fields] = None).
Proof.
  split; [done|]. split; [|split].
  - intros v Hv. destruct v; try done. by destruct (Hv fields).
  - intros fields k v Hin H1 H2 H3. simpl.
    rewrite (unknown_key_fails fields k v Hin); [done|].
    unfold known_key. apply String.eqb_neq in H1, H2, H3. by rewrite H1, H2, H3.
  - intros fields key v Hkey Hp Hv.
    assert (integer_minimum_0 v = None) as Hnone.
    { destruct v as [| |z| | | |]; try done. simpl.
      specialize (Hv z eq_refl). by rewrite (proj2 (Z.leb_gt 0 z)) by lia. }
    assert (∀ k, property fields k = Some v → optional_integer fields k = None) as Hopt.
    { intros k Hk. unfold optional_integer. by rewrite Hk, Hnone. }
    simpl. destruct (forallb _ fields); [|done].
    destruct Hkey as [-> | [-> | ->]].
    + by rewrite Hp, Hnone.
    + destruct (property fields "max") as [m|]; [|done].
      destruct (integer_minimum_0 m); [|done]. simpl.
      by rewrite (Hopt "maxEOF" Hp).
    + destruct (property fields "max") as [m|]; [|done].
      destruct (integer_minimum_0 m); [|done]. simpl.
      destruct (optional_integer fields "maxEOF"); [|done]. simpl.
      by rewrite (Hopt "maxBOF" Hp).
Qed.

Lemma schema_rejects_malformed_options_witness :
  validate [JObject [("max", JInteger 1); ("maxEOF", JInteger (-1))]] = None
  ∧ validate [JObject [("max", JInteger 1); ("min", JInteger 0)]] = None.
Proof.
  destruct schema_rejects_malformed_options as (_ & _ & H3 & H4). split.
  - apply (H4 _ "maxEOF" (JInteger (-1))); [by right; left|done|].
    intros z [= <-]. lia.
  - apply (H3 _ "min" (JInteger 0)); [by right; left|done|done|done].
Defined.

(** X8. Whatever configuration the schema accepts, with or without an
    option object, the three thresholds the rule runs with are
    non-negative. *)
Theorem accepted_thresholds_are_not_negative config options :
  validate config = Some options →
  (0 ≤ max (create options))%Z
  ∧ (0 ≤ maxEOF (create options))%Z
  ∧ (0 ≤ maxBOF (create options))%Z.
Proof. intros Hval. exact (create_valid config options Hval). Qed.

Lemma accepted_thresholds_are_not_negative_witness :
  (0 ≤ 3)%Z ∧ (0 ≤ 0)%Z ∧ (0 ≤ 3)%Z.
Proof.
  exact (accepted_thresholds_are_not_negative
           [JObject [("maxEOF", JInteger 0); ("max", JInteger 3)]]
           [{| opt_max := 3; opt_maxEOF := Some 0%Z; opt_maxBOF := None |}] eq_refl).
Defined.

Lemma segments_snoc_LF t A l :
  segments t = A ++ [(l, [])] → l ≠ [] →
  segments (t ++ [LF]) = A ++ [(l, [LF]); ([], [])].
Proof.
  intros Hs Hl.
  assert (t = flat A ++ l) as Ht.
  { rewrite <- (segments_flat t), Hs, flat_app. unfold flat at 2. simpl.
    by rewrite !app_nil_r. }
  destruct (segments_chars t (l, [])) as [Hchars _].
  { rewrite Hs. apply elem_of_app. right. by left. }
  simpl in Hchars.
  rewrite Ht at 1. rewrite <- app_assoc.
  rewrite (segments_prefix t A [(l, [])] (l ++ [LF])); [|done|done|].
  - f_equal. replace (l ++ [LF]) with (l ++ [LF] ++ []) by done.
    rewrite segments_line; [done|split; [done|by right; right; left]|].
    intros [[l' Hl'] _]. simpl in Hl'. injection Hl' as _ Heq. by vm_compute in Heq.
  - intros [_ Hh]. destruct l as [|c l]; [done|]. simpl in Hh. injection Hh as ->.
    by apply Forall_cons in Hchars as [Hc _].
Qed.

(** X9. The final newline is swallowed: with validated options,
    appending a line feed to a text whose last line has content changes
    no report, neither its location nor its fix. *)
Theorem final_newline_changes_no_report config options t templates l :
  validate config = Some options →
  last (lines t) = Some l → trim_truthy l = true →
  lint options (t ++ [LF]) templates = lint options t templates.
Proof.
  intros Hval%create_valid Hlast Htr.
  set (limits := create options) in *.
  set (tl := foldl TemplateLiteral ∅ templates).
  assert (l ≠ []) as Hl by (by intros ->).
  destruct (segments_last t) as [l' Hlast'].
  assert (l' = l) as ->.
  { unfold lines in Hlast. rewrite fmap_last, Hlast' in Hlast. by injection Hlast. }
  apply last_Some in Hlast' as [A Hs].
  pose proof (segments_snoc_LF t A l Hs Hl) as Hs'.
  assert (allLines (lines t) = lines t) as Hall.
  { unfold allLines. rewrite Hlast. rewrite decide_False; [done|congruence]. }
  assert (allLines (lines (t ++ [LF])) = lines t) as Hall'.
  { unfold allLines, lines. rewrite Hs', Hs, !fmap_app. simpl.
    replace (A.*1 ++ [l; []]) with ((A.*1 ++ [l]) ++ [[]]) by by rewrite <- app_assoc.
    rewrite last_snoc, decide_True by done.
    rewrite length_app. simpl. rewrite Nat.add_sub. by rewrite take_app_length. }
  assert (totalLines (t ++ [LF]) = totalLines t) as Hn'.
  { unfold totalLines. by rewrite Hall, Hall'. }
  assert (totalLines t = Z.of_nat (length A) + 1)%Z as Hn.
  { unfold totalLines. rewrite Hall, lines_length, Hs, length_app. simpl. lia. }
  assert (∀ k, (1 ≤ k ≤ totalLines t)%Z →
               offset_of_line (t ++ [LF]) k = offset_of_line t k) as Hoff.
  { intros k Hk. unfold offset_of_line. rewrite Hs', Hs.
    by rewrite !take_app_le by lia. }
  unfold lint. fold tl. rewrite !Program_exit_pairs. fold (totalLines (t ++ [LF])).
  fold (totalLines t). rewrite Hn', Hall, Hall'.
  apply list_fmap_ext. intros i [p c] Hi. simpl.
  assert (reported_pair limits t tl p c) as Hpair.
  { apply list_elem_of_lookup_2, list_elem_of_filter in Hi as [Hex Hin].
    split; [by rewrite Hall|done]. }
  destruct (reported_pair_facts _ _ _ _ _ Hval Hpair) as (Hp & Hc & Hthr & Hgap).
  assert (c ≤ totalLines t)%Z as Hcn.
  { destruct (decide (c ≤ totalLines t)%Z) as [|Hgt]; [done|exfalso].
    destruct (decide (p < totalLines t)%Z) as [Hlt|]; [|lia].
    apply (Hgap (totalLines t)); [lia|].
    apply elem_of_markers. exists l. split; [|split; [lia|by left]].
    rewrite Hall. unfold lines. rewrite Hs, fmap_app. simpl.
    rewrite lookup_app_r by (rewrite length_fmap; lia).
    rewrite length_fmap. by replace (Z.to_nat (totalLines t - 1) - length A)%nat with 0%nat by lia. }
  unfold make_report. rewrite select_classify. f_equal.
  pose proof (run_fix_value (t ++ [LF]) p c (threshold limits (classify (totalLines t) p c)))
    as Hfix'.
  rewrite Hn' in Hfix'. fold limits. rewrite Hfix', run_fix_value by lia.
  rewrite (proj2 (Z.leb_le _ _)) by lia.
  by rewrite !Hoff by lia.
Qed.

Lemma final_newline_changes_no_report_witness :
  lint [{| opt_max := 0; opt_maxEOF := None; opt_maxBOF := None |}]
       (js "a\n\nb" ++ [LF]) []
  = lint [{| opt_max := 0; opt_maxEOF := None; opt_maxBOF := None |}]
         (js "a\n\nb") [].
Proof.
  exact (final_newline_changes_no_report
           [JObject [("max", JInteger 0)]]
           [{| opt_max := 0; opt_maxEOF := None; opt_maxBOF := None |}]
           (js "a\n\nb") [] (js "b") eq_refl eq_refl eq_refl).
Defined.

End BlankLineMore.

(** ** More on the tab rule *)
Module TabMore.
Import SourceCode NoTabs TabRunSpec SegmentSpec ReportOrder.
Import SegmentFacts TabFacts MoreFacts TabRule.

(** A tab lies in a maximal run of tabs. *)
Lemma tab_in_maximal_run l j :
  l !! j = Some TAB → ∃ s e, is_tab_run l s e ∧ (s ≤ j < e)%nat.
Proof.
  intros Hj.
  assert (∃ s, (s ≤ j)%nat ∧ (∀ i, (s ≤ i ≤ j)%nat → l !! i = Some TAB)
               ∧ (s = O ∨ l !! (s - 1)%nat ≠ Some TAB)) as (s & Hsj & Htabs & Hleft).
  { induction j as [|j IH].
    - exists O. split; [lia|]. split; [|by left]. intros i Hi. by replace i with O by lia.
    - destruct (decide (l !! j = Some TAB)) as [Hprev|Hprev].
      + destruct (IH Hprev) as (s & Hsj & Htabs & Hleft). exists s.
        split; [lia|]. split; [|done]. intros i Hi.
        destruct (decide (i = S j)) as [->|]; [done|]. apply Htabs. lia.
      + exists (S j). split; [lia|]. split.
        * intros i Hi. by replace i with (S j) by lia.
        * right. by replace (S j - 1)%nat with j by lia. }
  destruct (tabRun_spec (drop s l)) as (Hrun & Hstop & _).
  rewrite lookup_drop in Hstop.
  assert (j < s + tabRun (drop s l))%nat as Hje.
  { destruct (decide (j < s + tabRun (drop s l))%nat); [done|exfalso].
    apply Hstop, Htabs. lia. }
  exists s, (s + tabRun (drop s l))%nat. split; [|lia].
  split; [lia|]. split; [|done].
  intros i Hi. specialize (Hrun (i - s)%nat ltac:(lia)). rewrite lookup_drop in Hrun.
  by replace (s + (i - s))%nat with i in Hrun by lia.
Qed.

(** Two maximal runs that share a column are the same run. *)
Lemma tab_run_unique l s e s' e' j :
  is_tab_run l s e → is_tab_run l s' e' →
  (s ≤ j < e)%nat → (s' ≤ j < e')%nat → s = s' ∧ e = e'.
Proof.
  intros Hr Hr' Hj Hj'.
  assert (s = s') as <-.
  { destruct Hr as (_ & Ht & Hl & _), Hr' as (_ & Ht' & Hl' & _).
    destruct (Nat.lt_total s s') as [Hlt | [-> | Hlt]]; [|done|]; exfalso.
    - destruct Hl' as [->|Hl']; [lia|]. apply Hl', Ht. lia.
    - destruct Hl as [->|Hl]; [lia|]. apply Hl, Ht'. lia. }
  split; [done|]. by eapply tab_run_end_unique.
Qed.

Lemma tab_run_within l s e : is_tab_run l s e → (e ≤ length l)%nat.
Proof.
  intros (Hse & Ht & _). specialize (Ht (e - 1)%nat ltac:(lia)).
  apply lookup_lt_Some in Ht. lia.
Qed.

(** The reports of a pass, line after line, in order. *)
Lemma forEach_line_sorted allow ls :
  ∀ index0, ∃ reports,
    (∀ fuel acc, Forall (fun l => (length l < fuel)%nat) ls →
                 forEach_line fuel allow ls index0 (O, acc) = Some (O, acc ++ reports))
    ∧ StronglySorted tab_before reports
    ∧ Forall (fun r => (Z.of_nat index0 + 1 ≤ line (start (loc r)))%Z) reports.
Proof.
  induction ls as [|l ls IH]; intros index0.
  - exists []. split; [|split; constructor].
    intros fuel acc _. simpl. by rewrite app_nil_r.
  - destruct (while_exec_visits allow index0 l (length l) O) as (runs & Hb & Hs & Hin & Hfuel);
      [lia|split; [lia|by left]|].
    destruct (IH (S index0)) as (reports' & Hrun' & Hs' & Hlines').
    pose proof (runs_length_bound _ O _ (Nat.le_0_l _) Hb Hs) as Hlen.
    assert (Forall (fun r => line (start (loc r)) = (Z.of_nat index0 + 1)%Z)
                   (reported allow index0 l runs)) as Hhere.
    { unfold reported. apply Forall_fmap, Forall_forall. by intros [s e] _. }
    exists (reported allow index0 l runs ++ reports'). split; [|split].
    + intros fuel acc [Hl Hls]%Forall_cons. simpl.
      rewrite (proj1 (Hfuel fuel acc)) by lia. simpl.
      rewrite Hrun' by done. by rewrite app_assoc.
    + apply StronglySorted_app_2; [| |done].
      * intros r1 r2 Hr1 Hr2. left.
        rewrite Forall_forall in Hhere, Hlines'.
        rewrite (Hhere _ Hr1). specialize (Hlines' _ Hr2). lia.
      * unfold reported.
        eapply (StronglySorted_fmap _ (fun a b : nat * nat => (a.2 < b.1)%nat)).
        -- intros [s e] [s' e'] Hlt. right. simpl in *. split; [done|lia].
        -- by apply StronglySorted_filter.
    + apply Forall_app. split.
      * eapply Forall_impl; [exact Hhere|]. simpl. intros r ->. lia.
      * eapply Forall_impl; [exact Hlines'|]. simpl. intros r Hr. lia.
Qed.

(** X10. Every report of a pass, whatever the options, is for columns
    [[s, e)] of one existing line of the text: the span is not empty,
    lies within the line, and every column of it holds a tab. *)
Theorem tab_report_spans_tabs_of_one_line options t :
  ∃ reports,
    (∀ fuel, (enough_fuel (lines t) ≤ fuel)%nat → Program fuel options t = Some reports)
    ∧ ∀ r, r ∈ reports →
           ∃ i l s e, lines t !! i = Some l ∧ r = report_at i (s, e)
                      ∧ (s < e ≤ length l)%nat
                      ∧ ∀ j, (s ≤ j < e)%nat → l !! j = Some TAB.
Proof.
  destruct (Program_reports options t) as (reports & Hrun & _ & Hin).
  exists reports. split; [done|].
  intros r (i & s & e & (l & Hl & Hse & _) & ->)%Hin.
  exists i, l, s, e. split; [done|]. split; [done|].
  pose proof (tab_run_within _ _ _ Hse). destruct Hse as (Hlt & Ht & _).
  split; [lia|done].
Qed.

Lemma tab_report_spans_tabs_of_one_line_witness :
  ∃ reports, Program 5 [] (js "a\t\tb") = Some reports.
Proof.
  destruct (tab_report_spans_tabs_of_one_line [] (js "a\t\tb")) as (reports & Hrun & _).
  exists reports. apply Hrun. vm_compute. lia.
Defined.

Lemma spans_report_at i s e i' j :
  spans (report_at i (s, e)) i' j ↔ i = i' ∧ (s ≤ j < e)%nat.
Proof. unfold spans, report_at. simpl. lia. Qed.

(** X11. Without [allowIndentationTabs] every tab character of the text
    lies in the span of exactly one report. *)
Theorem every_tab_is_reported_once options t :
  allowIndentationTabs options = false →
  ∃ reports,
    (∀ fuel, (enough_fuel (lines t) ≤ fuel)%nat → Program fuel options t = Some reports)
    ∧ ∀ i l j, lines t !! i = Some l → l !! j = Some TAB →
               ∃ r, r ∈ reports ∧ spans r i j
                    ∧ ∀ r', r' ∈ reports → spans r' i j → r' = r.
Proof.
  intros Hallow. destruct (Program_reports options t) as (reports & Hrun & _ & Hin).
  rewrite Hallow in Hin. exists reports. split; [done|].
  intros i l j Hl Hj. destruct (tab_in_maximal_run l j Hj) as (s & e & Hse & Hsje).
  exists (report_at i (s, e)). split; [|split].
  - apply Hin. exists i, s, e. split; [|done]. by exists l.
  - by apply spans_report_at.
  - intros r' (i' & s' & e' & (l' & Hl' & Hse' & _) & ->)%Hin [<- Hj']%spans_report_at.
    assert (l' = l) as -> by congruence.
    by destruct (tab_run_unique _ _ _ _ _ _ Hse Hse' Hsje Hj') as [-> ->].
Qed.

Lemma every_tab_is_reported_once_witness :
  ∃ reports, Program 6 [] (js "\ta\t\tb") = Some reports.
Proof.
  destruct (every_tab_is_reported_once [] (js "\ta\t\tb") eq_refl)
    as (reports & Hrun & _).
  exists reports. apply Hrun. vm_compute. lia.
Defined.

Lemma elem_of_flat c segs :
  c ∈ flat segs ↔ ∃ sg, sg ∈ segs ∧ (c ∈ sg.1 ∨ c ∈ sg.2).
Proof.
  induction segs as [|sg segs IH].
  - split; [by intros ?%elem_of_nil|by intros (sg & ?%elem_of_nil & _)].
  - rewrite flat_cons, !elem_of_app, IH. split.
    + intros [H | [H | (sg' & Hsg' & H)]].
      * exists sg. split; [by left|by left].
      * exists sg. split; [by left|by right].
      * exists sg'. split; [by right|done].
    + intros (sg' & [->|Hsg']%elem_of_cons & H); [tauto|].
      right; right. by exists sg'.
Qed.

(** A character that is not a line terminator is in the text exactly
    when it is in one of its lines. *)
Lemma elem_of_text_lines t c :
  isLineTerminator c = false → c ∈ t ↔ ∃ l, l ∈ lines t ∧ c ∈ l.
Proof.
  intros Hc. rewrite <- (segments_flat t) at 1. rewrite elem_of_flat.
  unfold lines. split.
  - intros (sg & Hsg & [H | H]).
    + exists sg.1. split; [|done]. apply list_elem_of_fmap. by exists sg.
    + exfalso. destruct (segments_chars t sg Hsg) as [_ Htm].
      rewrite Forall_forall in Htm. specialize (Htm c H). congruence.
  - intros (l & (sg & -> & Hsg)%list_elem_of_fmap & H). exists sg. split; [done|by left].
Qed.

(** X12. Without [allowIndentationTabs] a pass gives no report exactly
    when the text holds no tab character. *)
Theorem no_report_iff_no_tab options t :
  allowIndentationTabs options = false →
  ∃ reports,
    (∀ fuel, (enough_fuel (lines t) ≤ fuel)%nat → Program fuel options t = Some reports)
    ∧ (reports = [] ↔ TAB ∉ t).
Proof.
  intros Hallow. destruct (Program_reports options t) as (reports & Hrun & _ & Hin).
  rewrite Hallow in Hin. exists reports. split; [done|].
  rewrite (elem_of_text_lines t TAB) by done. split.
  - intros -> (l & [i Hl]%list_elem_of_lookup & [j Hj]%list_elem_of_lookup).
    destruct (tab_in_maximal_run l j Hj) as (s & e & Hse & _).
    apply (not_elem_of_nil (report_at i (s, e))). apply Hin.
    exists i, s, e. split; [|done]. by exists l.
  - intros Hno. destruct reports as [|r reports]; [done|exfalso].
    destruct (proj1 (Hin r)) as (i & s & e & (l & Hl & Hse & _) & _); [by left|].
    apply Hno. exists l. split.
    + apply list_elem_of_lookup. by exists i.
    + apply list_elem_of_lookup. exists s. by eapply tab_run_starts_with_tab.
Qed.

Lemma no_report_iff_no_tab_witness :
  ∃ reports, Program 4 [] (js "ab\ncd") = Some reports ∧ reports = [].
Proof.
  destruct (no_report_iff_no_tab [] (js "ab\ncd") eq_refl) as (reports & Hrun & Hiff).
  exists reports. split; [apply Hrun; vm_compute; lia|].
  apply Hiff. vm_compute. intros H. repeat (apply elem_of_cons in H as [H|H]; [done|]).
  by apply elem_of_nil in H.
Defined.

(** X13. With [allowIndentationTabs] a pass gives no report exactly
    when every tab of the text has only white space before it on its
    line. *)
Theorem no_report_iff_tabs_in_indentation options t :
  allowIndentationTabs options = true →
  ∃ reports,
    (∀ fuel, (enough_fuel (lines t) ≤ fuel)%nat → Program fuel options t = Some reports)
    ∧ (reports = [] ↔
       ∀ l j, l ∈ lines t → l !! j = Some TAB → within_indentation l j).
Proof.
  intros Hallow. destruct (Program_reports options t) as (reports & Hrun & _ & Hin).
  rewrite Hallow in Hin. exists reports. split; [done|]. split.
  - intros -> l j [i Hl]%list_elem_of_lookup Hj i' c Hi' Hc.
    destruct (isWhiteSpace c) eqn:Hws; [done|exfalso].
    destruct (tab_in_maximal_run l j Hj) as (s & e & Hse & Hsje).
    apply (not_elem_of_nil (report_at i (s, e))). apply Hin.
    exists i, s, e. split; [|done]. exists l. split; [done|]. split; [done|].
    apply (not_suppressed_iff _ _ _ _ Hse). intros _ Hw.
    assert (i' < s)%nat as Hlt.
    { destruct (decide (i' < s)%nat); [done|exfalso].
      destruct Hse as (_ & Ht & _). rewrite (Ht i') in Hc by lia.
      injection Hc as <-. done. }
    specialize (Hw i' c Hlt Hc). congruence.
  - intros Hall. destruct reports as [|r reports]; [done|exfalso].
    destruct (proj1 (Hin r)) as (i & s & e & (l & Hl & Hse & Hsup) & _); [by left|].
    assert (suppressed true l s = true); [|congruence].
    pose proof (tab_run_starts_with_tab _ _ _ Hse) as Hs.
    apply suppressed_true_iff; [apply lookup_lt_Some in Hs; lia|].
    split; [done|]. apply Hall; [|done]. apply list_elem_of_lookup. by exists i.
Qed.

Lemma no_report_iff_tabs_in_indentation_witness :
  ∃ reports,
    Program 4 [{| opt_allowIndentationTabs := true |}] (js "\t\ta") = Some reports.
Proof.
  destruct (no_report_iff_tabs_in_indentation
              [{| opt_allowIndentationTabs := true |}] (js "\t\ta") eq_refl)
    as (reports & Hrun & _).
  exists reports. apply Hrun. vm_compute. lia.
Defined.

(** X14. Turning [allowIndentationTabs] on adds no report: every report
    of a pass with any options is a report of the pass without the
    option. *)
Theorem indentation_option_adds_no_report options options' t :
  allowIndentationTabs options' = false →
  ∃ reports reports',
    (∀ fuel, (enough_fuel (lines t) ≤ fuel)%nat →
             Program fuel options t = Some reports
             ∧ Program fuel options' t = Some reports')
    ∧ ∀ r, r ∈ reports → r ∈ reports'.
Proof.
  intros Hallow.
  destruct (Program_reports options t) as (reports & Hrun & _ & Hin).
  destruct (Program_reports options' t) as (reports' & Hrun' & _ & Hin').
  rewrite Hallow in Hin'. exists reports, reports'. split; [by split; auto|].
  intros r (i & s & e & (l & Hl & Hse & _) & ->)%Hin. apply Hin'.
  exists i, s, e. split; [|done]. by exists l.
Qed.

Lemma indentation_option_adds_no_report_witness :
  ∃ reports reports',
    Program 4 [{| opt_allowIndentationTabs := true |}] (js "\ta\t") = Some reports
    ∧ Program 4 [] (js "\ta\t") = Some reports'.
Proof.
  destruct (indentation_option_adds_no_report
              [{| opt_allowIndentationTabs := true |}] [] (js "\ta\t") eq_refl)
    as (reports & reports' & Hrun & _).
  exists reports, reports'. apply Hrun. vm_compute. lia.
Defined.

(** X15. The reports of a pass come in text order: by line, and on one
    line each report ends before the next one starts. *)
Theorem tab_reports_in_text_order options t :
  ∃ reports,
    (∀ fuel, (enough_fuel (lines t) ≤ fuel)%nat → Program fuel options t = Some reports)
    ∧ StronglySorted tab_before reports.
Proof.
  destruct (forEach_line_sorted (allowIndentationTabs options) (lines t) O)
    as (reports & Hrun & Hs & _).
  exists reports. split; [|done].
  intros fuel Hf. unfold Program.
  by rewrite (Hrun fuel [] (enough_fuel_Forall _ _ Hf)).
Qed.

Lemma tab_reports_in_text_order_witness :
  ∃ reports, Program 5 [] (js "\ta\t\n\t") = Some reports.
Proof.
  destruct (tab_reports_in_text_order [] (js "\ta\t\n\t")) as (reports & Hrun & _).
  exists reports. apply Hrun. vm_compute. lia.
Defined.

(** X16. The expression [tabRegex] is shared by all lines and all
    passes and keeps its [lastIndex]: a loop over the lines that starts
    with [lastIndex = 0] and has fuel above the length of every line
    ends with [lastIndex = 0], whatever was reported. *)
Theorem lastIndex_is_zero_after_the_lines allow ls index0 fuel acc :
  Forall (fun l => (length l < fuel)%nat) ls →
  ∃ reports, forEach_line fuel allow ls index0 (O, acc) = Some (O, acc ++ reports).
Proof.
  intros Hf. destruct (forEach_line_sorted allow ls index0) as (reports & Hrun & _).
  exists reports. by apply Hrun.
Qed.

Lemma lastIndex_is_zero_after_the_lines_witness :
  ∃ reports,
    forEach_line 4 false [js "\ta"; js "b\t\t"] 0 (O, []) = Some (O, [] ++ reports).
Proof.
  apply (lastIndex_is_zero_after_the_lines false [js "\ta"; js "b\t\t"] 0 4 []).
  repeat constructor.
Defined.

End TabMore.
